(** * mbucket raw / mbucket info: a shallow embedding of
      [lib/mbucket/do_raw.js] and [lib/mbucket/do_info.js]

    The two commands are callback-driven: every observable action (a line on
    stdout, a call into the Manta client, the final [cb(...)]) is recorded
    as an [effect], and a command is a function from its inputs and the
    answers of its collaborators to the list of effects, in program order.

    JavaScript strings are represented by their UTF-8 text, as [string]. *)

From Stdlib Require Import ZArith Ascii String DecimalString Sorted.
From Stdlib.Strings Require Import Byte.
From stdpp Require Import base list strings.

Local Open Scope Z_scope.

Set Warnings "-register-all".

(** ** JavaScript string primitives used by the commands *)

Module JS.

(** The double-quote character. *)
Definition dq : string := String "034"%char EmptyString.

(** [s.indexOf(c)]: position of the first [c], or [-1]. *)
Fixpoint indexOf (c : ascii) (s : string) : Z :=
  match s with
  | EmptyString => -1
  | String a s' =>
      if Ascii.eqb a c then 0
      else let r := indexOf c s' in if r <? 0 then -1 else r + 1
  end.

(** [s.substr(start)]: the suffix from [start] on. *)
Fixpoint drop_chars (n : nat) (s : string) : string :=
  match n, s with
  | O, _ => s
  | S n', String _ s' => drop_chars n' s'
  | S _, EmptyString => EmptyString
  end.

Definition substr_from (s : string) (start : Z) : string :=
  drop_chars (Z.to_nat start) s.

(** [s.substr(start, len)]. *)
Definition substr (s : string) (start len : Z) : string :=
  String.substring (Z.to_nat start) (Z.to_nat len) s.

(** White space and line terminators of ECMAScript ([String.prototype.trim]
    and friends), by the length of their UTF-8 encoding:
    TAB LF VT FF CR SP; U+00A0; U+1680, U+2000..U+200A, U+2028, U+2029,
    U+202F, U+205F, U+3000, U+FEFF. *)
Definition ws1 (a : ascii) : bool :=
  let n := N_of_ascii a in
  ((9 <=? n) && (n <=? 13))%N || (n =? 32)%N.

Definition ws2 (a b : ascii) : bool :=
  ((N_of_ascii a =? 194) && (N_of_ascii b =? 160))%N.

Definition ws3 (a b c : ascii) : bool :=
  let x := N_of_ascii a in
  let y := N_of_ascii b in
  let z := N_of_ascii c in
  ((x =? 225) && (y =? 154) && (z =? 128)
   || (x =? 226) && (y =? 128)
      && (((128 <=? z) && (z <=? 138)) || (z =? 168) || (z =? 169) || (z =? 175))
   || (x =? 226) && (y =? 129) && (z =? 159)
   || (x =? 227) && (y =? 128) && (z =? 128)
   || (x =? 239) && (y =? 187) && (z =? 191))%N.

(** [s.trimLeft()]. *)
Fixpoint trimLeft (s : string) : string :=
  match s with
  | EmptyString => s
  | String a s1 =>
      if ws1 a then trimLeft s1
      else match s1 with
           | EmptyString => s
           | String b s2 =>
               if ws2 a b then trimLeft s2
               else match s2 with
                    | EmptyString => s
                    | String c s3 => if ws3 a b c then trimLeft s3 else s
                    end
           end
  end.

(** [s.split(/\n/g)]: never the empty list. *)
Fixpoint split_lines (s : string) : list string :=
  match s with
  | EmptyString => [EmptyString]
  | String a s' =>
      if Ascii.eqb a "010"%char then EmptyString :: split_lines s'
      else match split_lines s' with
           | l :: ls => String a l :: ls
           | [] => [String a EmptyString]
           end
  end.

(** Truthiness of an optional string property: [undefined] and [''] are
    falsy. *)
Definition truthy (o : option string) : bool :=
  match o with
  | Some s => negb (String.eqb s "")
  | None => false
  end.

(** [String(x)] for an optional string, as [%s] and [+] print it. *)
Definition show (nothing : string) (o : option string) : string :=
  match o with
  | Some s => s
  | None => nothing
  end.

(** Decimal rendering of an integer number ([%d], [JSON.stringify]). *)
Definition of_Z (z : Z) : string := NilZero.string_of_int (Z.to_int z).

End JS.

(** ** Errors *)

(** Errors raised by the collaborators (signing, transport, HEAD requests)
    are opaque to the commands; they only pass them on. *)
Inductive error : Type :=
  | UsageError (msg : string)       (* cmdln.UsageError *)
  | VError (msg : string)           (* verror *)
  | AssertionError (msg : string)   (* assert-plus *)
  | TypeError (msg : string)        (* raised by the runtime *)
  | External (tag : string).        (* an error object of a collaborator *)

(** ** Ordered string-keyed objects *)

(** A plain object used as a map, as the list of its own properties in
    the order in which [Object.keys] enumerates them: the array indices
    ("0", "1", ... up to 2^32 - 2) in ascending order, then the other names
    in the order in which they were created. *)
Definition obj (V : Type) : Type := list (string * V).

(** The value of the own property [k]. *)
Fixpoint obj_get {V} (k : string) (o : obj V) : option V :=
  match o with
  | [] => None
  | (k', v) :: o' => if String.eqb k' k then Some v else obj_get k o'
  end.

Fixpoint obj_has {V} (k : string) (o : obj V) : bool :=
  match o with
  | [] => false
  | (k', _) :: o' => String.eqb k' k || obj_has k o'
  end.

Definition digit (a : ascii) : option N :=
  let n := N_of_ascii a in
  if ((48 <=? n) && (n <=? 57))%N then Some (n - 48)%N else None.

Fixpoint decimal (s : string) (acc : N) : option N :=
  match s with
  | EmptyString => Some acc
  | String a s' =>
      match digit a with
      | Some d => decimal s' (10 * acc + d)%N
      | None => None
      end
  end.

(** The number a property name stands for when it is an array index: a
    decimal numeral without superfluous zero, at most 2^32 - 2. *)
Definition array_index (k : string) : option N :=
  match k with
  | EmptyString => None
  | String a rest =>
      if Ascii.eqb a "0" && negb (String.eqb rest "") then None
      else match decimal k 0 with
           | Some n => if (n <=? 4294967294)%N then Some n else None
           | None => None
           end
  end.

(** A new property [k] is enumerated before the property [k']. *)
Definition goes_before (k k' : string) : bool :=
  match array_index k, array_index k' with
  | Some i, Some j => (i <? j)%N
  | Some _, None => true
  | None, _ => false
  end.

(** A new value for a property that exists: it keeps its place. *)
Fixpoint obj_replace {V} (k : string) (v : V) (o : obj V) : obj V :=
  match o with
  | [] => []
  | (k', v') :: o' =>
      if String.eqb k' k then (k, v) :: o' else (k', v') :: obj_replace k v o'
  end.

(** A property that does not exist yet. *)
Fixpoint obj_insert {V} (k : string) (v : V) (o : obj V) : obj V :=
  match o with
  | [] => [(k, v)]
  | (k', v') :: o' =>
      if goes_before k k' then (k, v) :: (k', v') :: o'
      else (k', v') :: obj_insert k v o'
  end.

(** Giving the object the own property [k] with value [v]. *)
Definition obj_put {V} (k : string) (v : V) (o : obj V) : obj V :=
  if obj_has k o then obj_replace k v o else obj_insert k v o.

(** [o[k] = v] for a value that is not an object: the name [__proto__] is
    the accessor of [Object.prototype], whose setter ignores such a value,
    so no property is created; every other name becomes, or stays, an own
    property. *)
Definition obj_set {V} (k : string) (v : V) (o : obj V) : obj V :=
  if String.eqb k "__proto__" then o else obj_put k v o.

Definition obj_keys {V} (o : obj V) : list string := o.*1.

(** ** Values handed back by the transport, and [JSON.stringify] *)

(** The value found in [resErr.body]: the transport either parsed the error
    body (object, array, ...) or left it as text. A number is an integer,
    printed digit by digit: this is what [JSON.stringify] prints for the
    integers below 1e21; its exponent notation for larger numbers is not
    modelled, and fractions are not represented. *)
Inductive jsval : Type :=
  | JNull
  | JBool (b : bool)
  | JNum (n : Z)
  | JStr (s : string)
  | JArr (items : list jsval)
  | JObj (fields : list (string * jsval)).

Module Json.

Definition typeof (v : jsval) : string :=
  match v with
  | JNull | JArr _ | JObj _ => "object"
  | JBool _ => "boolean"
  | JNum _ => "number"
  | JStr _ => "string"
  end.

Definition truthy (v : jsval) : bool :=
  match v with
  | JNull => false
  | JBool b => b
  | JNum n => negb (n =? 0)
  | JStr s => negb (String.eqb s "")
  | JArr _ | JObj _ => true
  end.

Definition hex_digit (n : N) : ascii :=
  if (n <? 10)%N then ascii_of_N (48 + n) else ascii_of_N (87 + n).

(** One character of a string literal, escaped as [JSON.stringify] does. *)
Definition escape_char (a : ascii) : string :=
  let n := N_of_ascii a in
  if (n =? 8)%N then "\b"
  else if (n =? 9)%N then "\t"
  else if (n =? 10)%N then "\n"
  else if (n =? 12)%N then "\f"
  else if (n =? 13)%N then "\r"
  else if (n =? 34)%N then "\" +:+ JS.dq
  else if (n =? 92)%N then "\\"
  else if (n <? 32)%N then
    "\u00" +:+ String (hex_digit (n / 16)) (String (hex_digit (n mod 16)) "")
  else String a "".

Fixpoint escape (s : string) : string :=
  match s with
  | EmptyString => EmptyString
  | String a s' => escape_char a +:+ escape s'
  end.

Definition quote (s : string) : string := JS.dq +:+ escape s +:+ JS.dq.

(** [JSON.stringify(v)], without indentation. *)
Fixpoint stringify (v : jsval) : string :=
  match v with
  | JNull => "null"
  | JBool true => "true"
  | JBool false => "false"
  | JNum n => JS.of_Z n
  | JStr s => quote s
  | JArr items => "[" +:+ String.concat "," (List.map stringify items) +:+ "]"
  | JObj fields =>
      "{" +:+ String.concat ","
                (List.map (fun kv => quote (fst kv) +:+ ":" +:+ stringify (snd kv))
                          fields)
          +:+ "}"
  end.

End Json.

(** ** [Buffer.prototype.toString('utf8')] *)

(** The decoder replaces every ill-formed sequence by U+FFFD; well-formed
    sequences are kept, so the text is given by the same bytes. *)
Module Utf8.

Record state : Type := mkState {
  seen : string;     (* bytes of the sequence being read *)
  needed : nat;      (* continuation bytes still expected *)
  lower : N;         (* bounds for the next continuation byte *)
  upper : N
}.

Definition idle : state := mkState "" 0 128 191.

(** U+FFFD, encoded. *)
Definition replacement : string :=
  String (ascii_of_N 239) (String (ascii_of_N 191) (String (ascii_of_N 189) "")).

Definition lead (b : ascii) : string * state :=
  let n := N_of_ascii b in
  if (n <=? 127)%N then (String b "", idle)
  else if ((194 <=? n) && (n <=? 223))%N then
    ("", mkState (String b "") 1 128 191)
  else if ((224 <=? n) && (n <=? 239))%N then
    ("", mkState (String b "") 2
           (if (n =? 224)%N then 160%N else 128%N)
           (if (n =? 237)%N then 159%N else 191%N))
  else if ((240 <=? n) && (n <=? 244))%N then
    ("", mkState (String b "") 3
           (if (n =? 240)%N then 144%N else 128%N)
           (if (n =? 244)%N then 143%N else 191%N))
  else (replacement, idle).

Definition step (st : state) (b : ascii) : string * state :=
  match needed st with
  | O => lead b
  | S k =>
      let n := N_of_ascii b in
      if ((lower st <=? n) && (n <=? upper st))%N then
        match k with
        | O => (seen st +:+ String b "", idle)
        | S _ => ("", mkState (seen st +:+ String b "") k 128 191)
        end
      else let '(out, st') := lead b in (replacement +:+ out, st')
  end.

Fixpoint run (st : state) (bs : list byte) : string :=
  match bs with
  | [] => match needed st with O => "" | S _ => replacement end
  | b :: bs' =>
      let '(out, st') := step st (ascii_of_byte b) in out +:+ run st' bs'
  end.

Definition toString (chunk : list byte) : string := run idle chunk.

End Utf8.

(** ** Inputs, collaborators and effects *)

(** The parsed options of [mbucket raw] ([do_raw.options]). A flag that was
    not given is [false] or [None]. *)
Record raw_opts : Type := mkOpts {
  help : bool;
  verbose : bool;
  method : option string;
  header : option (list string);
  include : bool;
  data : option string
}.

(** What [url.parse] returns, as far as [do_raw] looks at it. *)
Record url : Type := mkUrl {
  host : option string;
  port : option string;
  pathname : option string;
  search : option string
}.

(** The response object passed with the ['result'] event. *)
Record response : Type := mkResponse {
  httpVersion : string;
  statusCode : Z;
  res_headers : obj string
}.

(** The error object passed with the ['result'] event. *)
Record res_error : Type := mkResError { err_body : option jsval }.

(** Events of the response stream. *)
Inductive res_event : Type :=
  | Data (chunk : list byte)
  | End.

(** [reqOpts], as passed to the HTTP client. *)
Record req_opts : Type := mkReqOpts {
  req_headers : obj string;
  req_path : string
}.

(** A storage URI as parsed by [MantaUri]. *)
Record manta_uri : Type := mkMantaUri {
  bucket : string;
  object : option string
}.

(** Library functions the commands call and whose code is elsewhere. *)
Record platform : Type := mkPlatform {
  url_parse : string -> url;                 (* url.parse *)
  client_path : option string -> string;     (* client.path *)
  STATUS_CODES : Z -> option string;         (* http.STATUS_CODES[code] *)
  MantaUri : string -> string + manta_uri    (* new MantaUri(s), or the
                                                message of what it throws *)
}.

(** What the asynchronous collaborators answer during one run of
    [mbucket raw]. *)
Record world : Type := mkWorld {
  signErr : option error;                (* argument of onSignRequest *)
  sign_sets : obj string -> obj string;  (* the own properties signRequest
                                            writes on the shared headers
                                            object, given its content *)
  reqErr : option error;                 (* argument of onRequest *)
  resErr : option res_error;             (* arguments of the 'result' event *)
  res : response;
  res_events : list res_event            (* what the response stream emits *)
}.

(** Observable actions, in program order. *)
Inductive effect : Type :=
  | do_help                                   (* this.do_help(..., cb): the
                                                 help command takes over,
                                                 callback included *)
  | signRequest (headers : obj string)        (* client.signRequest *)
  | request (methodFunc : string) (o : req_opts)  (* client.client[methodFunc] *)
  | req_write (d : string)                    (* req.write *)
  | req_end                                   (* req.end *)
  | res_on (event : string)                   (* res.on(event, ...) *)
  | stdout (text : string)                    (* bytes written to stdout *)
  | headBucket (b : string)
  | headBucketObject (b o : string)
  | printBucketObjectInfo (r : response)
  | cb (err : option error)                   (* the command's callback *)
  | throw (e : error).                        (* an uncaught exception *)

Definition nl : string := String "010"%char EmptyString.

(** [console.log(line)]; with several string arguments, [line] is their
    concatenation with single spaces, and a format string with [%s] and [%d]
    is already expanded in [line]. *)
Definition console_log (line : string) : effect := stdout (line +:+ nl).

(** ** mbucket raw *)

Definition methodFuncs : obj string :=
  [("GET", "get"); ("PUT", "put"); ("POST", "post");
   ("HEAD", "head"); ("OPTIONS", "opts"); ("DELETE", "del")].

(** The properties an object literal inherits from [Object.prototype]; all
    of them have a truthy value (a function, or the prototype itself). *)
Definition Object_prototype_names : list string :=
  ["constructor"; "__defineGetter__"; "__defineSetter__"; "hasOwnProperty";
   "__lookupGetter__"; "__lookupSetter__"; "isPrototypeOf";
   "propertyIsEnumerable"; "toString"; "valueOf"; "__proto__";
   "toLocaleString"].

(** What [{GET: 'get', ...}[method]] gives when it is not [undefined]: the
    name of a function of the HTTP client, or an inherited value, which
    names no function of the client. *)
Inductive method_func : Type :=
  | FuncName (name : string)
  | Inherited.

(** Lines 47-54. *)
Definition lookup_method_func (method : string) : option method_func :=
  match obj_get method methodFuncs with
  | Some name => Some (FuncName name)
  | None =>
      if existsb (String.eqb method) Object_prototype_names
      then Some Inherited else None
  end.

(** Lines 39-46. *)
Definition resolve_method (opts : raw_opts) : string :=
  if JS.truthy (method opts) then JS.show "" (method opts)
  else if JS.truthy (data opts) then "PUT" else "GET".

(** Lines 73-83, from index [i] on. *)
Fixpoint add_headers (raws : list string) (headers : obj string)
  : error + obj string :=
  match raws with
  | [] => inr headers
  | raw :: rest =>
      let j := JS.indexOf ":" raw in
      if j <? 0 then
        inl (VError ("failed to parse header: " +:+ JS.dq +:+ raw +:+ JS.dq))
      else
        let header := JS.substr raw 0 j in
        let value := JS.trimLeft (JS.substr_from raw (j + 1)) in
        add_headers rest (obj_set header value headers)
  end.

(** The shared headers object after [signRequest] has run. *)
Definition signed (w : world) (headers : obj string) : obj string :=
  foldl (fun o kv => obj_put (fst kv) (snd kv) o) headers (sign_sets w headers).

(** Lines 86-94. *)
Definition writeResLine (opts : raw_opts) (method : string) (line : string)
  : list effect :=
  (if verbose opts then [console_log ("< " +:+ line)] else [])
  ++ (if include opts || String.eqb method "HEAD" then [console_log line]
      else []).

Definition on_res_event (ev : res_event) : list effect :=
  match ev with
  | Data chunk => [stdout (Utf8.toString chunk)]
  | End => [cb None]
  end.

Section Raw.

Context (P : platform).

(** Lines 122-129. *)
Definition status_line (r : response) : string :=
  "HTTP/" +:+ httpVersion r +:+ " " +:+ JS.of_Z (statusCode r) +:+ " "
  +:+ JS.show "undefined" (STATUS_CODES P (statusCode r)).

Definition res_lines (r : response) : list string :=
  status_line r :: List.map (fun kv => fst kv +:+ ": " +:+ snd kv) (res_headers r)
  ++ [""].

(** Lines 118-129: the handler of the ['result'] event first writes the
    status line, the headers and an empty line through [writeResLine]. *)
Definition write_response_trace (opts : raw_opts) (method : string)
    (r : response) : list effect :=
  List.flat_map (writeResLine opts method) (res_lines r).

(** Lines 131-168: then it deals with the body; the handlers it installs
    on the response run once per event of the stream. *)
Definition handle_body (method : string) (w : world) : list effect :=
  if String.eqb method "HEAD" then [cb None]
  else
    match resErr w with
    | Some e =>
        match err_body e with
        | Some b =>
            if Json.truthy b then
              if String.eqb (Json.typeof b) "object" then
                [console_log (Json.stringify b); cb None]
              else
                match b with
                | JStr s => [stdout s; cb None]
                | _ => [throw (TypeError "invalid chunk")]
                end
            else [cb None]
        | None => [cb None]
        end
    | None =>
        [res_on "data"; res_on "end"]
        ++ List.flat_map on_res_event (res_events w)
    end.

Definition onResult (opts : raw_opts) (method : string) (w : world)
  : list effect :=
  write_response_trace opts method (res w) ++ handle_body method w.

(** Lines 110-116 and 172-180: the request trace, then the body. *)
Definition send_request (opts : raw_opts) (method : string)
    (reqOpts : req_opts) : list effect :=
  (if verbose opts then
     console_log ("> " +:+ method +:+ " " +:+ req_path reqOpts +:+ " HTTP/1.1")
     :: List.map (fun kv => console_log ("> " +:+ fst kv +:+ ": " +:+ snd kv))
                 (req_headers reqOpts)
     ++ [console_log ">"]
   else [])
  ++ (if JS.truthy (data opts) then
        (if verbose opts then
           List.map (fun line => console_log ("> " +:+ line))
                    (JS.split_lines (JS.show "" (data opts)))
         else [])
        ++ [req_write (JS.show "" (data opts))]
      else [])
  ++ [req_end].

(** Lines 104-181. The ['result'] event comes after [req.end()]. *)
Definition onRequest (opts : raw_opts) (method : string) (reqOpts : req_opts)
    (w : world) : list effect :=
  match reqErr w with
  | Some e => [cb (Some e)]
  | None => send_request opts method reqOpts ++ onResult opts method w
  end.

(** Lines 27-183. A value of the method table that is inherited passes
    the test of line 55, and the call of line 104, made once signing has
    succeeded, finds no function under it. *)
Definition do_raw (opts : raw_opts) (args : list string) (w : world)
  : list effect :=
  if help opts then [do_help]
  else if (Z.of_nat (length args) <? 1) then
    [cb (Some (UsageError "invalid arguments"))]
  else
    let method := resolve_method opts in
    match lookup_method_func method with
    | None =>
        [cb (Some (VError ("unknown HTTP method: " +:+ JS.dq +:+ method
                           +:+ JS.dq)))]
    | Some methodFunc =>
        let parsed := url_parse P (List.nth 0 args "") in
        if JS.truthy (host parsed) then
          [throw (AssertionError ("given PATH should not have a host: "
                                  +:+ JS.show "null" (host parsed)))]
        else if JS.truthy (port parsed) then
          [throw (AssertionError ("given PATH should not have a port: "
                                  +:+ JS.show "null" (port parsed)))]
        else
          let p := client_path P (pathname parsed) in
          let p := if JS.truthy (search parsed)
                   then p +:+ JS.show "" (search parsed) else p in
          match add_headers (default [] (header opts)) [] with
          | inl e => [cb (Some e)]
          | inr headers =>
              signRequest headers
              :: match signErr w with
                 | Some e => [cb (Some e)]
                 | None =>
                     match methodFunc with
                     | FuncName name =>
                         let reqOpts := mkReqOpts (signed w headers) p in
                         request name reqOpts
                         :: onRequest opts method reqOpts w
                     | Inherited =>
                         [throw (TypeError
                                   "client.client[methodFunc] is not a function")]
                     end
                 end
          end
    end.

(** ** mbucket info *)

(** [do_info], lines 19-57; [head] is what the HEAD call answers. *)
Definition do_info (help : bool) (args : list string)
    (head : error + response) : list effect :=
  if help then [do_help]
  else if negb (Z.of_nat (length args) =? 1) then
    [cb (Some (UsageError "incorrect number of args"))]
  else
    match MantaUri P (List.nth 0 args "") with
    | inl message => [cb (Some (UsageError message))]
    | inr muri =>
        (if JS.truthy (object muri)
         then headBucketObject (bucket muri) (JS.show "" (object muri))
         else headBucket (bucket muri))
        :: match head with
           | inl err => [cb (Some err)]
           | inr r => [printBucketObjectInfo r; cb None]
           end
    end.

End Raw.

(** ** Observations on a run *)

(** Everything written to stdout, in order. *)
Fixpoint stdout_text (tr : list effect) : string :=
  match tr with
  | [] => ""
  | stdout t :: tr' => t +:+ stdout_text tr'
  | _ :: tr' => stdout_text tr'
  end.

(** The arguments of the calls of the command's callback. *)
Definition completions (tr : list effect) : list (option error) :=
  omap (fun e => match e with cb r => Some r | _ => None end) tr.

(** Signing or any use of the HTTP client. *)
Definition is_request (e : effect) : bool :=
  match e with
  | signRequest _ | request _ _ | req_write _ | req_end => true
  | _ => false
  end.

Definition no_request (tr : list effect) : Prop :=
  Forall (fun e => is_request e = false) tr.

(** The response trace as [do_raw] emits it. *)
Definition response_trace (P : platform) (opts : raw_opts) (w : world)
  : list effect :=
  write_response_trace P opts (resolve_method opts) (res w).

(** The transport sets [resErr] exactly for statuses from 400 on
    (line 119). *)
Definition transport_ok (w : world) : Prop :=
  is_Some (resErr w) <-> 400 <= statusCode (res w).

(** Name and value [do_raw] takes from a header flag that has a colon. *)
Definition header_name (raw : string) : string :=
  JS.substr raw 0 (JS.indexOf ":" raw).

Definition header_value (raw : string) : string :=
  JS.trimLeft (JS.substr_from raw (JS.indexOf ":" raw + 1)).

(** ** Notions used in the statements *)

(** The six verbs of [methodFunc]. *)
Definition supported_methods : list string :=
  ["GET"; "PUT"; "POST"; "HEAD"; "OPTIONS"; "DELETE"].

(** The string has no colon. *)
Definition colon_free (s : string) : Prop :=
  forall a b, s <> a +:+ ":" +:+ b.

(** A run of white space, and a string that begins with white space. *)
Inductive white : string -> Prop :=
  | white_nil : white ""
  | white_1 a s : JS.ws1 a = true -> white s -> white (String a s)
  | white_2 a b s :
      JS.ws2 a b = true -> white s -> white (String a (String b s))
  | white_3 a b c s :
      JS.ws3 a b c = true -> white s -> white (String a (String b (String c s))).

Definition leading_white (s : string) : bool :=
  match s with
  | String a (String b (String c _)) => JS.ws1 a || JS.ws2 a b || JS.ws3 a b c
  | String a (String b "") => JS.ws1 a || JS.ws2 a b
  | String a "" => JS.ws1 a
  | "" => false
  end.

(** The error of line 77. *)
Definition malformed_header (raw : string) : error :=
  VError ("failed to parse header: " +:+ JS.dq +:+ raw +:+ JS.dq).

(** Effects that neither complete the command nor touch the response. *)
Definition quiet (e : effect) : bool :=
  match e with
  | cb _ | throw _ | res_on _ => false
  | _ => true
  end.

(** The same world with another error object and other stream events. *)
Definition with_body (w : world) (e : option res_error)
    (events : list res_event) : world :=
  mkWorld (signErr w) (sign_sets w) (reqErr w) e (res w) events.

(** What [do_raw] writes for an error body that is an object, an array or
    a text. *)
Definition error_body_text (b : jsval) : string :=
  match b with
  | JStr s => s
  | _ => Json.stringify b +:+ nl
  end.

(** The texts of a list, one after the other. *)
Definition concat_text (l : list string) : string := foldr String.append "" l.

(** The headers object the loop of lines 73-83 builds from flags that all
    have a colon. *)
Definition built_headers (raws : list string) : obj string :=
  foldl (fun o raw => obj_set (header_name raw) (header_value raw) o) [] raws.

(** The distinct elements of a list, in the order of their first
    occurrence. *)
Fixpoint distinct (l : list string) : list string :=
  match l with
  | [] => []
  | x :: l' => x :: filter (fun y => y <> x) (distinct l')
  end.

(** Signing and the call of the HTTP client. *)
Definition is_dispatch (e : effect) : bool :=
  match e with
  | signRequest _ | request _ _ => true
  | _ => false
  end.

(** ** Notions for the rest of the run *)

(** The errors of the uncaught exceptions of a run. *)
Definition throws (tr : list effect) : list error :=
  omap (fun e => match e with throw x => Some x | _ => None end) tr.

(** How often the response stream emits ['end']. *)
Fixpoint ends (events : list res_event) : nat :=
  match events with
  | [] => O
  | End :: rest => S (ends rest)
  | Data _ :: rest => ends rest
  end.

(** The request path of lines 61-67 for the argument [arg]. *)
Definition target_path (P : platform) (arg : string) : string :=
  let parsed := url_parse P arg in
  let p := client_path P (pathname parsed) in
  if JS.truthy (search parsed) then p +:+ JS.show "" (search parsed) else p.

(** Where lines 28-84 of [do_raw] leave the run: ended; ready to sign with
    the function name of the method, the headers and the path; or about to
    sign with a value of the method table that names no function. *)
Inductive prepared : Type :=
  | Stopped (tr : list effect)
  | Ready (methodFunc : string) (headers : obj string) (path : string)
  | Misnamed (headers : obj string).

Definition prepare (P : platform) (opts : raw_opts) (args : list string)
  : prepared :=
  if help opts then Stopped [do_help]
  else if (Z.of_nat (length args) <? 1) then
    Stopped [cb (Some (UsageError "invalid arguments"))]
  else
    match lookup_method_func (resolve_method opts) with
    | None =>
        Stopped [cb (Some (VError ("unknown HTTP method: " +:+ JS.dq
                                   +:+ resolve_method opts +:+ JS.dq)))]
    | Some methodFunc =>
        let parsed := url_parse P (List.nth 0 args "") in
        if JS.truthy (host parsed) then
          Stopped [throw (AssertionError
                            ("given PATH should not have a host: "
                             +:+ JS.show "null" (host parsed)))]
        else if JS.truthy (port parsed) then
          Stopped [throw (AssertionError
                            ("given PATH should not have a port: "
                             +:+ JS.show "null" (port parsed)))]
        else
          match add_headers (default [] (header opts)) [] with
          | inl e => Stopped [cb (Some e)]
          | inr headers =>
              match methodFunc with
              | FuncName name =>
                  Ready name headers (target_path P (List.nth 0 args ""))
              | Inherited => Misnamed headers
              end
          end
    end.

(** The exception of line 104 for a value that names no function. *)
Definition not_a_function : error :=
  TypeError "client.client[methodFunc] is not a function".


(** The names of the flags that create a header. *)
Definition header_names (raws : list string) : list string :=
  filter (fun n => n <> "__proto__") (header_name <$> raws).

(** The place a new name gets among the names of an object. *)
Fixpoint key_insert (k : string) (ks : list string) : list string :=
  match ks with
  | [] => [k]
  | k' :: ks' =>
      if goes_before k k' then k :: k' :: ks' else k' :: key_insert k ks'
  end.

(** Names none of which would be enumerated before an earlier one. *)
Definition ascending (names : list string) : Prop :=
  StronglySorted (fun a b => goes_before b a = false) names.

(** The HEAD calls of [mbucket info]. *)
Definition is_head (e : effect) : bool :=
  match e with
  | headBucket _ | headBucketObject _ _ => true
  | _ => false
  end.

(** Effects of handling the response: output, handlers on the stream, and
    the end of the run. *)
Definition is_outcome (e : effect) : bool :=
  match e with
  | stdout _ | res_on _ | cb _ | throw _ => true
  | _ => false
  end.

(** Writing to the request, and ending it. *)
Definition is_upload (e : effect) : bool :=
  match e with
  | req_write _ | req_end => true
  | _ => false
  end.

(** What [do_raw] writes to the request for [--data] (lines 172-179). *)
Definition upload (opts : raw_opts) : list effect :=
  match data opts with
  | Some d => if String.eqb d "" then [] else [req_write d]
  | None => []
  end.

(** The lines [--verbose] prints for the request (lines 110-116 and
    173-177). *)
Definition request_lines (opts : raw_opts) (ro : req_opts) : list string :=
  ("> " +:+ resolve_method opts +:+ " " +:+ req_path ro +:+ " HTTP/1.1")
  :: List.map (fun kv => "> " +:+ fst kv +:+ ": " +:+ snd kv) (req_headers ro)
  ++ [">"]
  ++ match data opts with
     | Some d => if String.eqb d "" then []
                 else List.map (fun l => "> " +:+ l) (JS.split_lines d)
     | None => []
     end.

(** The character occurs in the string. *)
Fixpoint occurs (c : ascii) (s : string) : bool :=
  match s with
  | EmptyString => false
  | String a s' => Ascii.eqb a c || occurs c s'
  end.

(** Well-formed UTF-8 (the Unicode standard, table 3-7): one to four bytes
    per code point, with the second byte of a three- or four-byte sequence
    bounded by the first. *)
Definition between (lo hi : N) (b : byte) : Prop :=
  (lo <= Byte.to_N b /\ Byte.to_N b <= hi)%N.

Definition second_low (b1 : byte) : N :=
  if (Byte.to_N b1 =? 224)%N then 160%N
  else if (Byte.to_N b1 =? 240)%N then 144%N else 128%N.

Definition second_high (b1 : byte) : N :=
  if (Byte.to_N b1 =? 237)%N then 159%N
  else if (Byte.to_N b1 =? 244)%N then 143%N else 191%N.

Inductive well_formed : list byte -> Prop :=
  | wf_nil : well_formed []
  | wf_1 b rest :
      between 0 127 b -> well_formed rest -> well_formed (b :: rest)
  | wf_2 b1 b2 rest :
      between 194 223 b1 -> between 128 191 b2 ->
      well_formed rest -> well_formed (b1 :: b2 :: rest)
  | wf_3 b1 b2 b3 rest :
      between 224 239 b1 -> between (second_low b1) (second_high b1) b2 ->
      between 128 191 b3 ->
      well_formed rest -> well_formed (b1 :: b2 :: b3 :: rest)
  | wf_4 b1 b2 b3 b4 rest :
      between 240 244 b1 -> between (second_low b1) (second_high b1) b2 ->
      between 128 191 b3 -> between 128 191 b4 ->
      well_formed rest -> well_formed (b1 :: b2 :: b3 :: b4 :: rest).

(** The bytes that occur in no UTF-8 text: C0, C1 and F5 to FF. *)
Definition never_in_utf8 (n : N) : bool :=
  ((n =? 192) || (n =? 193) || (245 <=? n))%N.

(** The string has a character whose code satisfies [p]. *)
Fixpoint has_code (p : N -> bool) (s : string) : bool :=
  match s with
  | EmptyString => false
  | String a s' => p (N_of_ascii a) || has_code p s'
  end.

(** The states the decoder can be in: the bytes kept so far are bytes of
    UTF-8, and the next one is awaited within 80..BF. *)
Definition clean_state (st : Utf8.state) : Prop :=
  has_code never_in_utf8 (Utf8.seen st) = false
  /\ (128 <= Utf8.lower st)%N /\ (Utf8.upper st <= 191)%N.

(** Induction on a value of the transport and the values inside it. *)
Section JsvalInduction.

Variable Q : jsval -> Prop.
Hypothesis Qnull : Q JNull.
Hypothesis Qbool : forall b, Q (JBool b).
Hypothesis Qnum : forall n, Q (JNum n).
Hypothesis Qstr : forall s, Q (JStr s).
Hypothesis Qarr : forall items, Forall Q items -> Q (JArr items).
Hypothesis Qobj :
  forall fields, Forall (fun kv => Q (snd kv)) fields -> Q (JObj fields).

Fixpoint jsval_nested_ind (v : jsval) : Q v :=
  match v with
  | JNull => Qnull
  | JBool b => Qbool b
  | JNum n => Qnum n
  | JStr s => Qstr s
  | JArr items =>
      Qarr items
        ((fix all (l : list jsval) : Forall Q l :=
            match l with
            | [] => @List.Forall_nil _ Q
            | x :: l' => @List.Forall_cons _ Q x l' (jsval_nested_ind x) (all l')
            end) items)
  | JObj fields =>
      Qobj fields
        ((fix all (l : list (string * jsval))
            : Forall (fun kv => Q (snd kv)) l :=
            match l with
            | [] => @List.Forall_nil _ (fun kv => Q (snd kv))
            | kv :: l' =>
                @List.Forall_cons _ (fun kv => Q (snd kv)) kv l'
                  (jsval_nested_ind (snd kv)) (all l')
            end) fields)
  end.

End JsvalInduction.

(** The bytes [cs] are the continuation bytes the decoder awaits in state
    [st]: as many as needed, the first within the bounds of the state, the
    others within 80..BF. *)
Definition completes (st : Utf8.state) (cs : list byte) : Prop :=
  length cs = Utf8.needed st
  /\ exists c cs', cs = c :: cs'
                   /\ between (Utf8.lower st) (Utf8.upper st) c
                   /\ Forall (between 128 191) cs'.

(** The bytes the decoder has kept begin a code point that every awaited
    continuation completes. *)
Definition pending_ok (st : Utf8.state) : Prop :=
  forall cs rest,
    completes st cs -> well_formed rest ->
    well_formed (list_byte_of_string (Utf8.seen st) ++ cs ++ rest).

(** ** A platform for the examples *)

Module Demo.

(** [url.parse] on [PATH], [PATH?QUERY] and [http://HOST/PATH]. *)
Definition parse (s : string) : url :=
  if String.prefix "http://" s then
    let rest := JS.substr_from s 7 in
    let i := JS.indexOf "/" rest in
    if i <? 0 then mkUrl (Some rest) None (Some "/") None
    else mkUrl (Some (JS.substr rest 0 i)) None (Some (JS.substr_from rest i)) None
  else
    let q := JS.indexOf "?" s in
    if q <? 0 then mkUrl None None (Some s) None
    else mkUrl None None (Some (JS.substr s 0 q)) (Some (JS.substr_from s q)).

Definition status (code : Z) : option string :=
  if code =? 200 then Some "OK"
  else if code =? 404 then Some "Not Found"
  else None.

(** [manta:BUCKET] and [manta:BUCKET/OBJECT]. *)
Definition uri (s : string) : string + manta_uri :=
  if String.prefix "manta:" s then
    let rest := JS.substr_from s 6 in
    let i := JS.indexOf "/" rest in
    if i <? 0 then inr (mkMantaUri rest None)
    else inr (mkMantaUri (JS.substr rest 0 i) (Some (JS.substr_from rest (i + 1))))
  else inl "not a manta URI".

Definition platform : platform :=
  mkPlatform parse (JS.show "") status uri.

Definition no_opts : raw_opts := mkOpts false false None None false None.

Definition ok_response : response :=
  mkResponse "1.1" 200 [("content-type", "text/plain")].

Definition not_found_response : response :=
  mkResponse "1.1" 404 [("content-type", "application/json")].

Definition not_found_body : jsval := JObj [("code", JStr "NotFound")].

(** The signer adds an [authorization] header. *)
Definition sets (_ : obj string) : obj string := [("authorization", "Signature x")].

Definition ok_world (events : list res_event) : world :=
  mkWorld None sets None None ok_response events.

Definition not_found_world (body : option jsval) : world :=
  mkWorld None sets None (Some (mkResError body)) not_found_response [].

End Demo.

(** * Properties *)

(** ** Basic facts *)

Lemma truthy_Some_ne (s : string) : s <> "" -> JS.truthy (Some s) = true.
Proof.
  intros Hs. unfold JS.truthy.
  destruct (String.eqb_spec s ""); [contradiction | reflexivity].
Qed.

Lemma methodFunc_None (m : string) :
  obj_get m methodFuncs = None <-> m ∉ supported_methods.
Proof.
  unfold methodFuncs, supported_methods; cbn [obj_get].
  rewrite !elem_of_cons, elem_of_nil.
  repeat (match goal with
          | |- context [String.eqb ?a m] => destruct (String.eqb_spec a m)
          end);
    split; intros H; try discriminate; try reflexivity; intuition congruence.
Qed.

Lemma methodFunc_Some (m : string) :
  m ∈ supported_methods -> is_Some (obj_get m methodFuncs).
Proof.
  intros Hm. destruct (obj_get m methodFuncs) eqn:E; [eauto |].
  apply methodFunc_None in E. contradiction.
Qed.

Lemma methodFunc_Some' (m : string) :
  is_Some (obj_get m methodFuncs) -> m ∈ supported_methods.
Proof.
  intros [mf Hmf]. destruct (decide (m ∈ supported_methods)) as [H | H];
    [exact H |].
  apply methodFunc_None in H. congruence.
Qed.

Lemma lookup_supported (m : string) :
  m ∈ supported_methods ->
  exists mf, lookup_method_func m = Some (FuncName mf)
             /\ obj_get m methodFuncs = Some mf.
Proof.
  intros Hm. destruct (methodFunc_Some m Hm) as [mf Hmf].
  exists mf. split; [| exact Hmf]. unfold lookup_method_func.
  rewrite Hmf. reflexivity.
Qed.

Lemma lookup_FuncName (m mf : string) :
  lookup_method_func m = Some (FuncName mf) <-> obj_get m methodFuncs = Some mf.
Proof.
  unfold lookup_method_func. destruct (obj_get m methodFuncs) as [f |].
  - split; intros [= ->]; reflexivity.
  - destruct (existsb _ _); split; discriminate.
Qed.

Lemma inherited_name (m : string) :
  existsb (String.eqb m) Object_prototype_names = true
  <-> m ∈ Object_prototype_names.
Proof.
  rewrite existsb_exists. split.
  - intros (x & Hx & Heq). apply String.eqb_eq in Heq. subst.
    apply list_elem_of_In. exact Hx.
  - intros Hm. exists m. split; [apply list_elem_of_In; exact Hm |].
    apply String.eqb_refl.
Qed.

Lemma lookup_None (m : string) :
  lookup_method_func m = None
  <-> (m ∉ supported_methods) /\ (m ∉ Object_prototype_names).
Proof.
  unfold lookup_method_func.
  destruct (obj_get m methodFuncs) as [f |] eqn:Hf.
  - split; [discriminate |]. intros [Hm _].
    apply methodFunc_None in Hm. congruence.
  - apply methodFunc_None in Hf.
    destruct (existsb (String.eqb m) Object_prototype_names) eqn:Hi.
    + split; [discriminate |]. intros [_ Hm]. apply inherited_name in Hi.
      contradiction.
    + split; [| reflexivity]. intros _. split; [exact Hf |].
      intros Hm. apply inherited_name in Hm. congruence.
Qed.

Lemma lookup_Inherited (m : string) :
  lookup_method_func m = Some Inherited
  <-> (m ∉ supported_methods) /\ m ∈ Object_prototype_names.
Proof.
  unfold lookup_method_func.
  destruct (obj_get m methodFuncs) as [f |] eqn:Hf.
  - split; [discriminate |]. intros [Hm _].
    apply methodFunc_None in Hm. congruence.
  - apply methodFunc_None in Hf.
    destruct (existsb (String.eqb m) Object_prototype_names) eqn:Hi.
    + apply inherited_name in Hi. split; auto.
    + split; [discriminate |]. intros [_ Hm].
      apply inherited_name in Hm. congruence.
Qed.

Lemma one_argument (a : string) (rest : list string) :
  (Z.of_nat (length (a :: rest)) <? 1) = false.
Proof. apply Z.ltb_ge. cbn [length]. lia. Qed.

Lemma no_request_single (e : effect) : is_request e = false -> no_request [e].
Proof. intros H. constructor; [exact H | constructor]. Qed.

#[local] Hint Resolve no_request_single : core.

(** ** Method resolution *)

(** C4, as stated, fails: an empty [--method] value is given but is not the
    resolved method, and the request is then made with GET; a method that
    names a property inherited from [Object.prototype] is none of the six
    verbs, yet the run signs and then dies at the call of the client,
    without the unknown-method error. *)
Lemma raw_method_flag_counterexample :
  let empty := mkOpts false false (Some "") None false None in
  let inherited := mkOpts false false (Some "constructor") None false None in
  method empty = Some ""
  /\ resolve_method empty = "GET"
  /\ do_raw Demo.platform empty ["/buckets"] (Demo.ok_world [End])
     = [signRequest [];
        request "get" (mkReqOpts [("authorization", "Signature x")] "/buckets");
        req_end; res_on "data"; res_on "end"; cb None]
  /\ resolve_method inherited = "constructor"
  /\ obj_get "constructor" methodFuncs = None
  /\ do_raw Demo.platform inherited ["/buckets"] (Demo.ok_world [End])
     = [signRequest [];
        throw (TypeError "client.client[methodFunc] is not a function")].
Proof. repeat split. Qed.

(** C4 (amended): a non-empty [--method] value is the resolved method; with
    the flag absent or empty the method is PUT for a non-empty [--data] and
    GET without [--data]; a resolved method that is none of the six
    supported ones and no name inherited from [Object.prototype] never
    leads to a request, signing included, and (no [--help], a path argument
    given) the command ends with the unknown-method error; and whatever the
    unsupported method is, the HTTP client is never called. *)
Theorem raw_method_resolution (P : platform) (opts : raw_opts)
    (args : list string) (w : world) :
  (forall m, method opts = Some m -> m <> "" -> resolve_method opts = m)
  /\ (JS.truthy (method opts) = false -> JS.truthy (data opts) = true ->
      resolve_method opts = "PUT")
  /\ (JS.truthy (method opts) = false -> data opts = None ->
      resolve_method opts = "GET")
  /\ (resolve_method opts ∉ supported_methods ->
      resolve_method opts ∉ Object_prototype_names ->
      no_request (do_raw P opts args w)
      /\ (help opts = false -> args <> [] ->
          do_raw P opts args w
          = [cb (Some (VError ("unknown HTTP method: " +:+ JS.dq
                               +:+ resolve_method opts +:+ JS.dq)))]))
  /\ (resolve_method opts ∉ supported_methods ->
      forall mf ro, request mf ro ∉ do_raw P opts args w).
Proof.
  split; [| split; [| split; [| split]]].
  5: { intros Hsup mf ro. unfold do_raw.
       assert (Hno : forall e, is_dispatch e = false -> request mf ro ∉ [e]).
       { intros e He H. apply list_elem_of_singleton in H. subst. discriminate. }
       destruct (help opts); [apply Hno; reflexivity |].
       destruct (Z.of_nat (length args) <? 1); [apply Hno; reflexivity |].
       destruct (lookup_method_func (resolve_method opts)) as [[name |] |] eqn:Hf;
         [| | apply Hno; reflexivity].
       { apply lookup_FuncName, mk_is_Some, methodFunc_Some' in Hf.
         contradiction. }
       destruct (JS.truthy (host _)); [apply Hno; reflexivity |].
       destruct (JS.truthy (port _)); [apply Hno; reflexivity |].
       destruct (add_headers _ _); [apply Hno; reflexivity |].
       intros H. apply elem_of_cons in H as [H | H]; [discriminate |].
       destruct (signErr w); revert H; apply Hno; reflexivity. }
  - intros m Hm Hne. unfold resolve_method. rewrite Hm.
    rewrite truthy_Some_ne by assumption. reflexivity.
  - intros Hm Hd. unfold resolve_method. rewrite Hm, Hd. reflexivity.
  - intros Hm Hd. unfold resolve_method. rewrite Hm, Hd. reflexivity.
  - intros Hsup Hinh.
    assert (H : lookup_method_func (resolve_method opts) = None)
      by (apply lookup_None; split; assumption).
    split.
    + unfold do_raw. destruct (help opts); [auto |].
      destruct (Z.of_nat (length args) <? 1); [auto |].
      rewrite H. auto.
    + intros Hh Ha. unfold do_raw. rewrite Hh.
      destruct args as [| a rest]; [contradiction |].
      rewrite one_argument, H. reflexivity.
Qed.

Lemma raw_method_resolution_witness :
  let opts := mkOpts false false (Some "PATCH") None false (Some "{}") in
  resolve_method opts = "PATCH"
  /\ do_raw Demo.platform opts ["/buckets"] (Demo.ok_world [End])
     = [cb (Some (VError ("unknown HTTP method: " +:+ JS.dq +:+ "PATCH"
                          +:+ JS.dq)))].
Proof.
  intros opts.
  destruct (raw_method_resolution Demo.platform opts ["/buckets"]
              (Demo.ok_world [End])) as (Hflag & _ & _ & Hunknown & _).
  split.
  - apply (Hflag "PATCH"); [reflexivity | discriminate].
  - assert (Hm : lookup_method_func (resolve_method opts) = None)
      by reflexivity.
    apply lookup_None in Hm as [Hsup Hinh].
    destruct (Hunknown Hsup Hinh) as [_ Herr].
    apply Herr; [reflexivity | discriminate].
Defined.

(** ** Target resolution *)

(** C6: when [url.parse] of the path argument yields a (non-empty) host or
    port, no signing and no HTTP call happen for any flags, and (no
    [--help], a supported method) the command dies on the assertion about
    the target. *)
Theorem raw_target_with_host_or_port (P : platform) (opts : raw_opts)
    (path : string) (rest : list string) (w : world) :
  JS.truthy (host (url_parse P path)) = true
  \/ JS.truthy (port (url_parse P path)) = true ->
  no_request (do_raw P opts (path :: rest) w)
  /\ (help opts = false -> resolve_method opts ∈ supported_methods ->
      exists msg, do_raw P opts (path :: rest) w = [throw (AssertionError msg)]).
Proof.
  intros Hurl. unfold do_raw. rewrite one_argument. cbn [List.nth].
  split.
  - destruct (help opts); [auto |].
    destruct (lookup_method_func (resolve_method opts)); [| auto].
    destruct (JS.truthy (host (url_parse P path))) eqn:Hh; [auto |].
    destruct (JS.truthy (port (url_parse P path))) eqn:Hp; [auto |].
    destruct Hurl; discriminate.
  - intros Hhelp Hm. rewrite Hhelp.
    destruct (lookup_supported _ Hm) as (mf & -> & _).
    destruct (JS.truthy (host (url_parse P path))) eqn:Hh; [eauto |].
    destruct (JS.truthy (port (url_parse P path))) eqn:Hp; [eauto |].
    destruct Hurl; discriminate.
Qed.

Lemma raw_target_with_host_or_port_witness :
  no_request (do_raw Demo.platform Demo.no_opts ["http://example.com/buckets"]
                (Demo.ok_world [End]))
  /\ exists msg,
      do_raw Demo.platform Demo.no_opts ["http://example.com/buckets"]
        (Demo.ok_world [End])
      = [throw (AssertionError msg)].
Proof.
  destruct (raw_target_with_host_or_port Demo.platform Demo.no_opts
              "http://example.com/buckets" [] (Demo.ok_world [End]))
    as [Hnone Hthrow].
  - left. reflexivity.
  - split; [exact Hnone |].
    apply Hthrow; [reflexivity |].
    change (resolve_method Demo.no_opts) with "GET". apply list_elem_of_here.
Defined.

(** ** Argument count *)

(** C8 (what the code does): [do_raw] only rejects an empty argument list;
    arguments after the first are ignored, so two paths lead to a request
    for the first one. *)
Theorem raw_extra_arguments_ignored (P : platform) (opts : raw_opts)
    (path : string) (rest : list string) (w : world) :
  do_raw P opts (path :: rest) w = do_raw P opts [path] w
  /\ do_raw Demo.platform Demo.no_opts ["/a"; "/b"] (Demo.ok_world [End])
     = [signRequest [];
        request "get" (mkReqOpts [("authorization", "Signature x")] "/a");
        req_end; res_on "data"; res_on "end"; cb None]
  /\ do_raw P (mkOpts false (verbose opts) (method opts) (header opts)
                 (include opts) (data opts)) [] w
     = [cb (Some (UsageError "invalid arguments"))].
Proof.
  split; [| split; reflexivity].
  unfold do_raw. rewrite !one_argument. reflexivity.
Qed.

(** ** mbucket info *)

(** C9: with one argument that [MantaUri] accepts, [do_info] calls
    [headBucketObject] when the URI names an object and [headBucket]
    otherwise; on success it prints the response and completes without
    error, on failure it passes the error of the HEAD call on. *)
Theorem info_head_request (P : platform) (arg : string) (muri : manta_uri)
    (head : error + response) :
  MantaUri P arg = inr muri ->
  let call :=
    match object muri with
    | Some o => if String.eqb o "" then headBucket (bucket muri)
                else headBucketObject (bucket muri) o
    | None => headBucket (bucket muri)
    end in
  do_info P false [arg] head
  = call :: match head with
            | inr r => [printBucketObjectInfo r; cb None]
            | inl err => [cb (Some err)]
            end.
Proof.
  intros Huri call. unfold do_info. cbn [length List.nth negb Z.of_nat].
  change (Z.pos (Pos.of_succ_nat 0) =? 1) with true. cbn [negb].
  rewrite Huri. subst call.
  destruct (object muri) as [o |]; cbn [JS.truthy JS.show]; [| reflexivity].
  destruct (String.eqb o ""); reflexivity.
Qed.

Lemma info_head_request_witness :
  do_info Demo.platform false ["manta:mybucket/foo.txt"] (inr Demo.ok_response)
  = [headBucketObject "mybucket" "foo.txt";
     printBucketObjectInfo Demo.ok_response; cb None]
  /\ do_info Demo.platform false ["manta:mybucket"] (inl (External "ENOTFOUND"))
     = [headBucket "mybucket"; cb (Some (External "ENOTFOUND"))].
Proof.
  split.
  - apply (info_head_request Demo.platform "manta:mybucket/foo.txt"
             (mkMantaUri "mybucket" (Some "foo.txt"))).
    reflexivity.
  - apply (info_head_request Demo.platform "manta:mybucket"
             (mkMantaUri "mybucket" None)).
    reflexivity.
Defined.

(** ** Header flags *)

Lemma append_nil_l (s : string) : "" +:+ s = s.
Proof. reflexivity. Qed.

Lemma append_cons (a : ascii) (s t : string) :
  String a s +:+ t = String a (s +:+ t).
Proof. reflexivity. Qed.

Ltac string_simpl := rewrite ?append_cons, ?append_nil_l.

Lemma indexOf_bounds (c : ascii) (s : string) :
  JS.indexOf c s = -1 \/ 0 <= JS.indexOf c s.
Proof.
  induction s as [| a s IH]; cbn [JS.indexOf]; [left; reflexivity |].
  destruct (Ascii.eqb a c); [right; lia |].
  destruct (Z.ltb_spec (JS.indexOf c s) 0); [left; reflexivity | right; lia].
Qed.

Lemma indexOf_split (c : ascii) (s : string) :
  0 <= JS.indexOf c s ->
  s = JS.substr s 0 (JS.indexOf c s)
      +:+ String c (JS.substr_from s (JS.indexOf c s + 1)).
Proof.
  unfold JS.substr, JS.substr_from.
  induction s as [| a s IH]; cbn [JS.indexOf]; [lia |].
  destruct (Ascii.eqb_spec a c) as [-> | Hne]; [reflexivity |].
  destruct (Z.ltb_spec (JS.indexOf c s) 0) as [Hlt | Hge]; [lia |].
  intros _.
  replace (Z.to_nat (JS.indexOf c s + 1)) with (S (Z.to_nat (JS.indexOf c s)))
    in * by lia.
  replace (Z.to_nat (JS.indexOf c s + 1 + 1))
    with (S (S (Z.to_nat (JS.indexOf c s)))) by lia.
  change (Z.to_nat 0) with O in *.
  change (String a s
          = String a (String.substring 0 (Z.to_nat (JS.indexOf c s)) s
                      +:+ String c (JS.drop_chars
                                      (S (Z.to_nat (JS.indexOf c s))) s))).
  f_equal. apply IH. exact Hge.
Qed.

Lemma colon_free_indexOf (s : string) :
  colon_free s <-> JS.indexOf ":" s < 0.
Proof.
  split.
  - intros Hfree.
    destruct (indexOf_bounds ":" s) as [-> | Hge]; [lia |].
    exfalso. exact (Hfree _ _ (indexOf_split ":" s Hge)).
  - intros Hneg a b ->. revert Hneg.
    change (":" +:+ b) with (String ":" b).
    induction a as [| x a IH]; string_simpl; cbn [JS.indexOf].
    + change (Ascii.eqb ":" ":") with true. cbv iota. lia.
    + destruct (Ascii.eqb x ":"); [lia |].
      destruct (Z.ltb_spec (JS.indexOf ":" (a +:+ String ":" b)) 0); [auto | lia].
Qed.

Lemma colon_free_tail (a : ascii) (s : string) :
  colon_free (String a s) -> a <> ":"%char /\ colon_free s.
Proof.
  intros Hfree. split.
  - intros ->. exact (Hfree "" s eq_refl).
  - intros x y ->. exact (Hfree (String a x) y eq_refl).
Qed.

Lemma indexOf_first_colon (name rest : string) :
  colon_free name ->
  JS.indexOf ":" (name +:+ ":" +:+ rest) = Z.of_nat (String.length name).
Proof.
  change (":" +:+ rest) with (String ":" rest).
  induction name as [| a name IH]; intros Hfree; string_simpl;
    cbn [JS.indexOf].
  - reflexivity.
  - destruct (colon_free_tail _ _ Hfree) as [Hne Hfree'].
    destruct (Ascii.eqb_spec a ":"); [contradiction |].
    rewrite (IH Hfree').
    destruct (Z.ltb_spec (Z.of_nat (String.length name)) 0); [lia |].
    cbn [String.length]. lia.
Qed.

Lemma substr_prefix (name rest : string) :
  JS.substr (name +:+ rest) 0 (Z.of_nat (String.length name)) = name.
Proof.
  unfold JS.substr. rewrite Nat2Z.id. change (Z.to_nat 0) with O.
  induction name as [| a name IH]; string_simpl; cbn [String.length].
  - destruct rest; reflexivity.
  - cbn [String.substring]. f_equal. exact IH.
Qed.

Lemma substr_from_suffix (name rest : string) :
  JS.substr_from (name +:+ rest) (Z.of_nat (String.length name)) = rest.
Proof.
  unfold JS.substr_from. rewrite Nat2Z.id.
  induction name as [| a name IH]; string_simpl;
    cbn [String.length JS.drop_chars]; [reflexivity | exact IH].
Qed.

(** The flag [NAME:REST] parses to [NAME] and [REST] without its leading
    white space. *)
Lemma header_split (name rest : string) :
  colon_free name ->
  header_name (name +:+ ":" +:+ rest) = name
  /\ header_value (name +:+ ":" +:+ rest) = JS.trimLeft rest.
Proof.
  intros Hfree. unfold header_name, header_value.
  rewrite (indexOf_first_colon name rest Hfree). split.
  - apply substr_prefix.
  - f_equal.
    replace (Z.of_nat (String.length name) + 1)
      with (Z.of_nat (String.length (name +:+ ":"))).
    + replace (name +:+ ":" +:+ rest) with ((name +:+ ":") +:+ rest).
      * apply substr_from_suffix.
      * clear. induction name as [| a name IH]; string_simpl;
          [reflexivity | f_equal; exact IH].
    + clear. induction name as [| a name IH]; string_simpl;
        cbn [String.length]; [reflexivity | lia].
Qed.

(** [trimLeft] removes a run of white space, and all of it. *)
Lemma trimLeft_spec (s : string) :
  exists ws, white ws /\ s = ws +:+ JS.trimLeft s
             /\ leading_white (JS.trimLeft s) = false.
Proof.
  remember (String.length s) as n eqn:Hn. revert s Hn.
  induction n as [n IH] using lt_wf_ind. intros s ->.
  destruct s as [| a s1]; [exists ""; repeat split; constructor |].
  cbn [JS.trimLeft]. destruct (JS.ws1 a) eqn:E1.
  { destruct (IH (String.length s1) ltac:(cbn [String.length]; lia) s1 eq_refl)
      as (ws & Hws & Heq & Hlead).
    exists (String a ws). repeat split; [constructor; assumption | | exact Hlead].
    string_simpl. f_equal. exact Heq. }
  destruct s1 as [| b s2].
  { exists "". repeat split; [constructor |]. cbn [leading_white]. exact E1. }
  destruct (JS.ws2 a b) eqn:E2.
  { destruct (IH (String.length s2) ltac:(cbn [String.length]; lia) s2 eq_refl)
      as (ws & Hws & Heq & Hlead).
    exists (String a (String b ws)).
    repeat split; [constructor; assumption | | exact Hlead].
    string_simpl. do 2 f_equal. exact Heq. }
  destruct s2 as [| c s3].
  { exists "". repeat split; [constructor |]. cbn [leading_white].
    rewrite E1, E2. reflexivity. }
  destruct (JS.ws3 a b c) eqn:E3.
  { destruct (IH (String.length s3) ltac:(cbn [String.length]; lia) s3 eq_refl)
      as (ws & Hws & Heq & Hlead).
    exists (String a (String b (String c ws))).
    repeat split; [constructor; assumption | | exact Hlead].
    string_simpl. do 3 f_equal. exact Heq. }
  exists "". repeat split; [constructor |]. cbn [leading_white].
  rewrite E1, E2, E3. reflexivity.
Qed.

Lemma add_headers_step (name rest : string) (more : list string)
    (hs : obj string) :
  colon_free name ->
  add_headers ((name +:+ ":" +:+ rest) :: more) hs
  = add_headers more (obj_set name (JS.trimLeft rest) hs).
Proof.
  intros Hfree. destruct (header_split name rest Hfree) as [Hname Hvalue].
  cbn [add_headers]. fold (header_name (name +:+ ":" +:+ rest)).
  fold (header_value (name +:+ ":" +:+ rest)). rewrite Hname, Hvalue.
  rewrite (indexOf_first_colon name rest Hfree).
  destruct (Z.ltb_spec (Z.of_nat (String.length name)) 0); [lia | reflexivity].
Qed.

(** The loop stops at the first flag without a colon. *)
Lemma add_headers_bad (raws : list string) :
  (exists raw, raw ∈ raws /\ colon_free raw) ->
  exists bad, bad ∈ raws /\ colon_free bad
              /\ forall hs, add_headers raws hs = inl (malformed_header bad).
Proof.
  induction raws as [| raw raws IH]; intros (r & Hin & Hfree).
  - inversion Hin.
  - destruct (Z.ltb_spec (JS.indexOf ":" raw) 0) as [Hneg | Hpos].
    + exists raw. repeat split; [apply list_elem_of_here | |].
      * apply colon_free_indexOf. exact Hneg.
      * intros hs. cbn [add_headers].
        destruct (Z.ltb_spec (JS.indexOf ":" raw) 0); [reflexivity | lia].
    + destruct IH as (bad & Hbad & Hbfree & Hfail).
      * exists r. split; [| exact Hfree].
        apply elem_of_cons in Hin as [-> | Hin]; [| exact Hin].
        apply colon_free_indexOf in Hfree. lia.
      * exists bad. repeat split; [apply list_elem_of_further; exact Hbad
                                  | exact Hbfree |].
        intros hs. cbn [add_headers].
        destruct (Z.ltb_spec (JS.indexOf ":" raw) 0); [lia | apply Hfail].
Qed.

(** C5: a [--header] value without a colon never leads to a request, and
    (no [--help], a path without host and port, a supported method) the
    command ends with the malformed-header error for such a value; a value
    [NAME:REST] sets header [NAME] to [REST] without its leading white
    space. *)
Theorem raw_header_flags (P : platform) (opts : raw_opts)
    (args : list string) (w : world) (raws : list string) :
  header opts = Some raws ->
  (forall raw, raw ∈ raws -> colon_free raw ->
     no_request (do_raw P opts args w)
     /\ (forall path rest,
           args = path :: rest -> help opts = false ->
           resolve_method opts ∈ supported_methods ->
           JS.truthy (host (url_parse P path)) = false ->
           JS.truthy (port (url_parse P path)) = false ->
           exists bad, bad ∈ raws /\ colon_free bad
                       /\ do_raw P opts args w
                          = [cb (Some (malformed_header bad))]))
  /\ (forall name rest more hs,
        colon_free name ->
        add_headers ((name +:+ ":" +:+ rest) :: more) hs
        = add_headers more (obj_set name (JS.trimLeft rest) hs)
        /\ exists ws, white ws /\ rest = ws +:+ JS.trimLeft rest
                      /\ leading_white (JS.trimLeft rest) = false).
Proof.
  intros Hhdr. split.
  - intros raw Hin Hfree.
    destruct (add_headers_bad raws (ex_intro _ raw (conj Hin Hfree)))
      as (bad & Hbad & Hbfree & Hfail).
    split.
    + unfold do_raw. rewrite Hhdr. cbn [default]. rewrite Hfail.
      destruct (help opts); [auto |].
      destruct (Z.of_nat (length args) <? 1); [auto |].
      destruct (lookup_method_func (resolve_method opts)); [| auto].
      destruct (JS.truthy (host _)); [auto |].
      destruct (JS.truthy (port _)); auto.
    + intros path rest -> Hhelp Hm Hhost Hport.
      exists bad. repeat split; [exact Hbad | exact Hbfree |].
      unfold do_raw. rewrite Hhelp, one_argument.
      destruct (lookup_supported _ Hm) as (mf & -> & _).
      cbn [List.nth]. rewrite Hhost, Hport, Hhdr. cbn [default].
      rewrite Hfail. reflexivity.
  - intros name rest more hs Hfree. split.
    + apply add_headers_step. exact Hfree.
    + apply trimLeft_spec.
Qed.

Lemma raw_header_flags_witness :
  let opts := mkOpts false false None (Some ["a: b"; "oops"]) false None in
  no_request (do_raw Demo.platform opts ["/buckets"] (Demo.ok_world [End]))
  /\ (exists bad,
        bad ∈ ["a: b"; "oops"] /\ colon_free bad
        /\ do_raw Demo.platform opts ["/buckets"] (Demo.ok_world [End])
           = [cb (Some (malformed_header bad))])
  /\ add_headers ["content-type:  text/plain"] [] = inr [("content-type", "text/plain")].
Proof.
  intros opts.
  destruct (raw_header_flags Demo.platform opts ["/buckets"]
              (Demo.ok_world [End]) ["a: b"; "oops"] eq_refl)
    as [Hbad Hgood].
  assert (Hfree : colon_free "oops") by (apply colon_free_indexOf; reflexivity).
  destruct (Hbad "oops" (list_elem_of_further _ _ _ (list_elem_of_here _ _)) Hfree)
    as [Hnone Herr].
  split; [exact Hnone |]. split.
  - apply (Herr "/buckets" []); try reflexivity.
    change (resolve_method opts) with "GET". apply list_elem_of_here.
  - assert (Hname : colon_free "content-type")
      by (apply colon_free_indexOf; reflexivity).
    destruct (Hgood "content-type" "  text/plain" [] [] Hname) as [Hstep _].
    exact Hstep.
Defined.

(** ** The request/response engine *)

Lemma stdout_text_app (a b : list effect) :
  stdout_text (a ++ b) = stdout_text a +:+ stdout_text b.
Proof.
  induction a as [| e a IH]; [reflexivity |].
  destruct e; cbn [app stdout_text]; try exact IH.
  rewrite IH. clear. induction text as [| c t IHt]; string_simpl;
    [reflexivity | f_equal; exact IHt].
Qed.

Lemma completions_app (a b : list effect) :
  completions (a ++ b) = completions a ++ completions b.
Proof. unfold completions. apply omap_app. Qed.

Lemma quiet_completions (tr : list effect) :
  Forall (fun e => quiet e = true) tr -> completions tr = [].
Proof.
  induction 1 as [| e tr He _ IH]; [reflexivity |].
  destruct e; try discriminate; exact IH.
Qed.

Lemma quiet_map_console_log {A} (f : A -> string) (l : list A) :
  Forall (fun e => quiet e = true) (List.map (fun x => console_log (f x)) l).
Proof. apply List.Forall_map, Forall_forall. reflexivity. Qed.

Lemma send_request_split (opts : raw_opts) (m : string) (ro : req_opts) :
  exists pre, send_request opts m ro = pre ++ [req_end]
              /\ Forall (fun e => quiet e = true) pre
              /\ (verbose opts = false -> stdout_text pre = "").
Proof.
  unfold send_request. eexists. split; [rewrite List.app_assoc; reflexivity |].
  split.
  - apply Forall_app. split.
    + destruct (verbose opts); [| constructor].
      constructor; [reflexivity |]. apply Forall_app. split.
      * apply (quiet_map_console_log (fun kv => "> " +:+ fst kv +:+ ": " +:+ snd kv)).
      * repeat constructor.
    + destruct (JS.truthy (data opts)); [| constructor].
      apply Forall_app. split; [| repeat constructor].
      destruct (verbose opts); [| constructor].
      apply (quiet_map_console_log (fun line => "> " +:+ line)).
  - intros ->. destruct (JS.truthy (data opts)); reflexivity.
Qed.

(** Once the request has been sent, the run is: signing, the call of the
    HTTP client, the request trace and body, [req.end()], and then the
    handler of the ['result'] event. *)
Lemma do_raw_sent (P : platform) (opts : raw_opts) (args : list string)
    (w : world) :
  req_end ∈ do_raw P opts args w ->
  exists pre,
    do_raw P opts args w
    = pre ++ req_end :: onResult P opts (resolve_method opts) w
    /\ Forall (fun e => quiet e = true) pre
    /\ (verbose opts = false -> stdout_text pre = "").
Proof.
  unfold do_raw.
  assert (Hno : forall e, req_end ∈ [cb e] -> False).
  { intros e H. apply list_elem_of_singleton in H. discriminate. }
  assert (Hno' : forall e, req_end ∈ [throw e] -> False).
  { intros e H. apply list_elem_of_singleton in H. discriminate. }
  destruct (help opts).
  { intros H. apply list_elem_of_singleton in H. discriminate. }
  destruct (Z.of_nat (length args) <? 1); [intros H; destruct (Hno _ H) |].
  destruct (lookup_method_func (resolve_method opts)) as [f |];
    [| intros H; destruct (Hno _ H)].
  destruct (JS.truthy (host _)); [intros H; destruct (Hno' _ H) |].
  destruct (JS.truthy (port _)); [intros H; destruct (Hno' _ H) |].
  destruct (add_headers _ _) as [e | hs]; [intros H; destruct (Hno _ H) |].
  destruct (signErr w).
  { intros H. apply elem_of_cons in H as [H | H]; [discriminate |].
    destruct (Hno _ H). }
  destruct f as [mf |].
  2: { intros H. apply elem_of_cons in H as [H | H]; [discriminate |].
       destruct (Hno' _ H). }
  unfold onRequest. destruct (reqErr w).
  { intros H. apply elem_of_cons in H as [H | H]; [discriminate |].
    apply elem_of_cons in H as [H | H]; [discriminate |].
    destruct (Hno _ H). }
  intros _.
  match goal with
  | |- context [send_request opts ?m ?ro] =>
      destruct (send_request_split opts m ro) as (pre & -> & Hq & Hout)
  end.
  eexists (_ :: _ :: pre). split; [| split].
  - cbn [app]. rewrite <- List.app_assoc. reflexivity.
  - repeat (constructor; [reflexivity |]). exact Hq.
  - intros Hv. cbn [stdout_text]. apply Hout. exact Hv.
Qed.

Lemma add_headers_ok (raws : list string) (acc : obj string) :
  (forall raw, raw ∈ raws -> ~ colon_free raw) ->
  exists hs, add_headers raws acc = inr hs.
Proof.
  revert acc. induction raws as [| raw raws IH]; intros acc Hall;
    cbn [add_headers]; [eauto |].
  destruct (Z.ltb_spec (JS.indexOf ":" raw) 0) as [Hneg | Hpos].
  - destruct (Hall raw (list_elem_of_here _ _)).
    apply colon_free_indexOf. exact Hneg.
  - apply IH. intros r Hr. apply Hall, list_elem_of_further. exact Hr.
Qed.

(** The request is sent whenever every check of [do_raw] passes and neither
    signing nor the HTTP client reports an error. *)
Lemma do_raw_sends (P : platform) (opts : raw_opts) (path : string)
    (rest : list string) (w : world) :
  help opts = false ->
  resolve_method opts ∈ supported_methods ->
  JS.truthy (host (url_parse P path)) = false ->
  JS.truthy (port (url_parse P path)) = false ->
  (forall raw, raw ∈ default [] (header opts) -> ~ colon_free raw) ->
  signErr w = None ->
  reqErr w = None ->
  req_end ∈ do_raw P opts (path :: rest) w.
Proof.
  intros Hhelp Hm Hhost Hport Hhdr Hsign Hreq.
  unfold do_raw. rewrite Hhelp, one_argument.
  destruct (lookup_supported _ Hm) as (mf & -> & _).
  cbn [List.nth]. rewrite Hhost, Hport.
  destruct (add_headers_ok _ [] Hhdr) as [hs ->].
  rewrite Hsign. unfold onRequest. rewrite Hreq.
  match goal with
  | |- context [send_request opts ?m ?ro] =>
      destruct (send_request_split opts m ro) as (pre & -> & _)
  end.
  do 2 apply list_elem_of_further.
  apply elem_of_app. left. apply elem_of_app. right. apply list_elem_of_here.
Qed.

Lemma head_eqb_false (m : string) : m <> "HEAD" -> String.eqb m "HEAD" = false.
Proof. intros H. apply String.eqb_neq. exact H. Qed.

Lemma flat_map_single {A B} (f : A -> B) (l : list A) :
  List.flat_map (fun x => [f x]) l = List.map f l.
Proof. induction l as [| x l IH]; [reflexivity | cbn; f_equal; exact IH]. Qed.

Lemma flat_map_none {A B} (l : list A) :
  List.flat_map (fun _ : A => @nil B) l = [].
Proof. induction l as [| x l IH]; [reflexivity | exact IH]. Qed.

(** The four ways [writeResLine] treats the lines of the response trace. *)
Lemma response_trace_cases (P : platform) (opts : raw_opts) (m : string)
    (r : response) :
  write_response_trace P opts m r
  = match verbose opts, include opts || String.eqb m "HEAD" with
    | false, false => []
    | false, true => List.map console_log (res_lines P r)
    | true, false =>
        List.map (fun l => console_log ("< " +:+ l)) (res_lines P r)
    | true, true =>
        List.flat_map (fun l => [console_log ("< " +:+ l); console_log l])
                      (res_lines P r)
    end.
Proof.
  unfold write_response_trace, writeResLine.
  destruct (verbose opts), (include opts || String.eqb m "HEAD"); cbn [app].
  - reflexivity.
  - apply flat_map_single.
  - apply flat_map_single.
  - apply flat_map_none.
Qed.

Lemma response_trace_quiet (P : platform) (opts : raw_opts) (m : string)
    (r : response) :
  Forall (fun e => quiet e = true) (write_response_trace P opts m r).
Proof.
  unfold write_response_trace. apply List.Forall_flat_map, Forall_forall.
  intros line _. unfold writeResLine.
  destruct (verbose opts), (include opts || String.eqb m "HEAD");
    repeat constructor.
Qed.

(** C7: after the request has been sent, the lines of the response trace
    (status line, one line per header, an empty line) are written to
    stdout right after [req.end()] and before the body is dealt with, if
    and only if [--verbose] or [--include] is set or the method is HEAD;
    with [--verbose] each line is also written behind the mark "< ". *)
Theorem raw_response_trace_shown (P : platform) (opts : raw_opts)
    (args : list string) (w : world) :
  req_end ∈ do_raw P opts args w ->
  let m := resolve_method opts in
  let lines := res_lines P (res w) in
  let T := response_trace P opts w in
  (exists pre,
      do_raw P opts args w = pre ++ req_end :: T ++ handle_body m w
      /\ Forall (fun e => quiet e = true) pre)
  /\ (T = [] <-> verbose opts = false /\ include opts = false /\ m <> "HEAD")
  /\ (verbose opts = false -> include opts = true \/ m = "HEAD" ->
      T = List.map console_log lines)
  /\ (verbose opts = true -> include opts = false -> m <> "HEAD" ->
      T = List.map (fun l => console_log ("< " +:+ l)) lines)
  /\ (verbose opts = true -> include opts = true \/ m = "HEAD" ->
      T = List.flat_map (fun l => [console_log ("< " +:+ l); console_log l])
            lines)
  /\ lines
     = ("HTTP/" +:+ httpVersion (res w) +:+ " "
        +:+ JS.of_Z (statusCode (res w)) +:+ " "
        +:+ JS.show "undefined" (STATUS_CODES P (statusCode (res w))))
       :: List.map (fun kv => fst kv +:+ ": " +:+ snd kv) (res_headers (res w))
       ++ [""].
Proof.
  intros Hsent m lines T.
  assert (Hshown : include opts = true \/ m = "HEAD" ->
                   include opts || String.eqb m "HEAD" = true).
  { intros [-> | ->]; [reflexivity | apply orb_true_r]. }
  subst T. unfold response_trace. fold m. rewrite response_trace_cases.
  fold lines.
  split; [| split; [| split; [| split; [| split]]]].
  - destruct (do_raw_sent P opts args w Hsent) as (pre & Heq & Hq & _).
    exists pre. split; [| exact Hq].
    rewrite Heq. unfold onResult. fold m. rewrite response_trace_cases.
    reflexivity.
  - split.
    + destruct (verbose opts), (include opts) eqn:Hi,
        (String.eqb_spec m "HEAD") as [Hm | Hm];
        cbn [orb]; intros H; try discriminate H; auto.
    + intros (-> & -> & Hm). rewrite (head_eqb_false m Hm). reflexivity.
  - intros -> Hs. rewrite (Hshown Hs). reflexivity.
  - intros -> -> Hm. rewrite (head_eqb_false m Hm). reflexivity.
  - intros -> Hs. rewrite (Hshown Hs). reflexivity.
  - reflexivity.
Qed.

Lemma raw_response_trace_shown_witness :
  let opts := mkOpts false false None None true None in
  do_raw Demo.platform opts ["/buckets"] (Demo.ok_world [End])
  = [signRequest [];
     request "get" (mkReqOpts [("authorization", "Signature x")] "/buckets");
     req_end;
     stdout ("HTTP/1.1 200 OK" +:+ nl);
     stdout ("content-type: text/plain" +:+ nl);
     stdout nl;
     res_on "data"; res_on "end"; cb None]
  /\ response_trace Demo.platform opts (Demo.ok_world [End])
     = List.map console_log
         (res_lines Demo.platform (res (Demo.ok_world [End]))).
Proof.
  intros opts. split; [reflexivity |].
  assert (Hsent : req_end ∈ do_raw Demo.platform opts ["/buckets"]
                              (Demo.ok_world [End])).
  { do 2 apply list_elem_of_further. apply list_elem_of_here. }
  destruct (raw_response_trace_shown Demo.platform opts ["/buckets"]
              (Demo.ok_world [End]) Hsent) as (_ & _ & Hplain & _).
  apply Hplain; [reflexivity | left; reflexivity].
Defined.

Lemma completions_after_request (pre T rest : list effect) :
  Forall (fun e => quiet e = true) pre ->
  Forall (fun e => quiet e = true) T ->
  completions (pre ++ req_end :: T ++ rest) = completions rest.
Proof.
  intros Hpre HT.
  rewrite completions_app, (quiet_completions pre Hpre).
  change (req_end :: T ++ rest) with ([req_end] ++ T ++ rest)%list.
  rewrite !completions_app, (quiet_completions T HT). reflexivity.
Qed.

(** C3: with method HEAD, once the request has been sent the command writes
    the response trace and completes without error; it installs no handler
    on the response stream, and the run does not depend on the status, on
    the error object or on anything the stream would emit. *)
Theorem raw_head_no_body (P : platform) (opts : raw_opts)
    (args : list string) (w : world) :
  resolve_method opts = "HEAD" ->
  req_end ∈ do_raw P opts args w ->
  (exists pre,
      do_raw P opts args w
      = pre ++ req_end :: response_trace P opts w ++ [cb None]
      /\ Forall (fun e => quiet e = true) pre)
  /\ Forall (fun e => quiet e = true) (response_trace P opts w)
  /\ completions (do_raw P opts args w) = [None]
  /\ (forall ev, res_on ev ∉ do_raw P opts args w)
  /\ (forall e events,
        do_raw P opts args (with_body w e events) = do_raw P opts args w).
Proof.
  intros Hm Hsent.
  destruct (do_raw_sent P opts args w Hsent) as (pre & Heq & Hq & _).
  assert (Hshape : do_raw P opts args w
                   = pre ++ req_end :: response_trace P opts w ++ [cb None]).
  { rewrite Heq. unfold onResult, response_trace, handle_body.
    rewrite Hm. reflexivity. }
  assert (HT := response_trace_quiet P opts (resolve_method opts) (res w)).
  fold (response_trace P opts w) in HT.
  split; [exists pre; split; assumption |].
  split; [exact HT |].
  split; [rewrite Hshape; apply completions_after_request; assumption |].
  split.
  - intros ev Hin. rewrite Hshape in Hin.
    assert (Hall : Forall (fun e => e <> res_on ev)
                     (pre ++ req_end :: response_trace P opts w ++ [cb None])).
    { apply Forall_app. split.
      - eapply Forall_impl; [exact Hq |]. intros x Hx ->. discriminate.
      - constructor; [discriminate |]. apply Forall_app. split.
        + eapply Forall_impl; [exact HT |]. intros x Hx ->. discriminate.
        + repeat constructor. discriminate. }
    rewrite Forall_forall in Hall. exact (Hall _ Hin eq_refl).
  - intros e events. unfold do_raw, onRequest, onResult, handle_body, with_body.
    rewrite Hm. reflexivity.
Qed.

Lemma raw_head_no_body_witness :
  let opts := mkOpts false false (Some "HEAD") None false None in
  let w := Demo.not_found_world (Some Demo.not_found_body) in
  do_raw Demo.platform opts ["/buckets/b/objects/o"] w
  = [signRequest [];
     request "head"
       (mkReqOpts [("authorization", "Signature x")] "/buckets/b/objects/o");
     req_end;
     stdout ("HTTP/1.1 404 Not Found" +:+ nl);
     stdout ("content-type: application/json" +:+ nl);
     stdout nl;
     cb None]
  /\ completions (do_raw Demo.platform opts ["/buckets/b/objects/o"] w) = [None].
Proof.
  intros opts w. split; [reflexivity |].
  assert (Hsent : req_end ∈ do_raw Demo.platform opts ["/buckets/b/objects/o"] w).
  { do 2 apply list_elem_of_further. apply list_elem_of_here. }
  destruct (raw_head_no_body Demo.platform opts ["/buckets/b/objects/o"] w
              eq_refl Hsent) as (_ & _ & Hdone & _).
  exact Hdone.
Defined.

(** ** Error bodies *)

(** C1, as stated, fails twice: the serialized body is followed by a line
    feed, and with method HEAD the body of an error response is not written
    at all. *)
Lemma raw_error_body_counterexample :
  let body := "{" +:+ JS.dq +:+ "code" +:+ JS.dq +:+ ":" +:+ JS.dq
              +:+ "NotFound" +:+ JS.dq +:+ "}" in
  let w := Demo.not_found_world (Some Demo.not_found_body) in
  let head := mkOpts false false (Some "HEAD") None false None in
  400 <= statusCode (res w)
  /\ stdout_text (do_raw Demo.platform Demo.no_opts ["/buckets/nope"] w)
     = body +:+ nl
  /\ stdout_text (do_raw Demo.platform Demo.no_opts ["/buckets/nope"] w)
     <> body
  /\ stdout_text (do_raw Demo.platform head ["/buckets/nope"] w)
     = "HTTP/1.1 404 Not Found" +:+ nl
       +:+ "content-type: application/json" +:+ nl +:+ nl.
Proof.
  cbv zeta. split; [vm_compute; discriminate |].
  split; [reflexivity |]. split; [| reflexivity].
  vm_compute. discriminate.
Qed.

(** C1 (amended): when the method is not HEAD and the ['result'] event
    carries an error object with a body (the transport does so for statuses
    from 400 on), the command writes, after the response trace, the body
    serialized by [JSON.stringify] and a line feed if the body is an object
    or an array, and the body unchanged if it is a text; then it completes
    without error. For the body [{code: 'NotFound'}] and no [--verbose] or
    [--include], stdout holds exactly the serialized body and a line
    feed. *)
Theorem raw_error_body (P : platform) (opts : raw_opts) (args : list string)
    (w : world) (b : jsval) :
  req_end ∈ do_raw P opts args w ->
  resolve_method opts <> "HEAD" ->
  resErr w = Some (mkResError (Some b)) ->
  Json.truthy b = true ->
  Json.typeof b = "object" \/ Json.typeof b = "string" ->
  (exists pre,
      do_raw P opts args w
      = pre ++ req_end :: response_trace P opts w
            ++ [stdout (error_body_text b); cb None]
      /\ Forall (fun e => quiet e = true) pre)
  /\ completions (do_raw P opts args w) = [None]
  /\ (verbose opts = false -> include opts = false ->
      stdout_text (do_raw P opts args w) = error_body_text b)
  /\ error_body_text (JObj [("code", JStr "NotFound")])
     = "{" +:+ JS.dq +:+ "code" +:+ JS.dq +:+ ":" +:+ JS.dq +:+ "NotFound"
       +:+ JS.dq +:+ "}" +:+ nl.
Proof.
  intros Hsent Hm Herr Htruthy Htype.
  destruct (do_raw_sent P opts args w Hsent) as (pre & Heq & Hq & Hout).
  assert (Hbody : handle_body (resolve_method opts) w
                  = [stdout (error_body_text b); cb None]).
  { unfold handle_body. rewrite (head_eqb_false _ Hm), Herr.
    cbn [err_body]. rewrite Htruthy.
    destruct b; cbn [Json.typeof] in Htype |- *;
      try reflexivity; destruct Htype; discriminate. }
  assert (Hshape : do_raw P opts args w
                   = pre ++ req_end :: response_trace P opts w
                         ++ [stdout (error_body_text b); cb None]).
  { rewrite Heq. unfold onResult, response_trace. rewrite Hbody. reflexivity. }
  assert (HT := response_trace_quiet P opts (resolve_method opts) (res w)).
  fold (response_trace P opts w) in HT.
  split; [exists pre; split; assumption |].
  split; [rewrite Hshape; apply completions_after_request; assumption |].
  split; [| reflexivity].
  intros Hv Hi. rewrite Hshape, stdout_text_app, (Hout Hv).
  unfold response_trace. rewrite response_trace_cases, Hv, Hi.
  rewrite (head_eqb_false _ Hm). cbn [orb app stdout_text].
  string_simpl. clear.
  induction (error_body_text b) as [| c t IH]; string_simpl;
    [reflexivity | f_equal; exact IH].
Qed.

Lemma raw_error_body_witness :
  let w := Demo.not_found_world (Some Demo.not_found_body) in
  completions (do_raw Demo.platform Demo.no_opts ["/buckets/nope"] w) = [None]
  /\ stdout_text (do_raw Demo.platform Demo.no_opts ["/buckets/nope"] w)
     = "{" +:+ JS.dq +:+ "code" +:+ JS.dq +:+ ":" +:+ JS.dq +:+ "NotFound"
       +:+ JS.dq +:+ "}" +:+ nl.
Proof.
  intros w.
  assert (Hsent : req_end ∈ do_raw Demo.platform Demo.no_opts
                              ["/buckets/nope"] w).
  { do 2 apply list_elem_of_further. apply list_elem_of_here. }
  destruct (raw_error_body Demo.platform Demo.no_opts ["/buckets/nope"] w
              Demo.not_found_body Hsent)
    as (_ & Hdone & Hout & Htext).
  - discriminate.
  - reflexivity.
  - reflexivity.
  - left. reflexivity.
  - split; [exact Hdone |].
    rewrite <- Htext. apply Hout; reflexivity.
Defined.

(** ** Streaming a success body *)

Lemma success_has_no_error (w : world) :
  transport_ok w -> statusCode (res w) < 400 -> resErr w = None.
Proof.
  intros Hok Hlt. destruct (resErr w) as [e |] eqn:He; [| reflexivity].
  assert (400 <= statusCode (res w)) by (apply Hok; eauto). lia.
Qed.

Lemma data_events (chunks : list (list byte)) :
  List.flat_map on_res_event (List.map Data chunks)
  = List.map (fun c => stdout (Utf8.toString c)) chunks.
Proof.
  induction chunks as [| c cs IH]; [reflexivity |].
  cbn [List.map List.flat_map on_res_event app]. f_equal. exact IH.
Qed.

Lemma stdout_text_chunks (chunks : list (list byte)) (rest : list effect) :
  stdout_text (List.map (fun c => stdout (Utf8.toString c)) chunks ++ rest)
  = concat_text (List.map Utf8.toString chunks) +:+ stdout_text rest.
Proof.
  induction chunks as [| c cs IH]; [reflexivity |].
  cbn [List.map app stdout_text concat_text foldr]. rewrite IH.
  fold (concat_text (List.map Utf8.toString cs)).
  generalize (concat_text (List.map Utf8.toString cs)) as t.
  generalize (stdout_text rest) as u. clear.
  intros u t. induction (Utf8.toString c) as [| x s IH]; string_simpl;
    [reflexivity | f_equal; exact IH].
Qed.

Lemma append_nil_r (s : string) : s +:+ "" = s.
Proof. induction s as [| c s IH]; string_simpl; [reflexivity | f_equal; exact IH]. Qed.

(** C2: for a response below 400 to a method other than HEAD, the command
    installs the handlers of ['data'] and ['end'], writes every chunk once,
    decoded as UTF-8 and in arrival order, and calls back only on ['end'];
    the chunks "foo" and "bar" give "foobar". *)
Theorem raw_success_body_streamed (P : platform) (opts : raw_opts)
    (args : list string) (w : world) (chunks : list (list byte)) :
  req_end ∈ do_raw P opts args w ->
  resolve_method opts <> "HEAD" ->
  transport_ok w ->
  statusCode (res w) < 400 ->
  (res_events w = List.map Data chunks ++ [End] ->
   (exists pre,
       do_raw P opts args w
       = pre ++ req_end :: response_trace P opts w
             ++ [res_on "data"; res_on "end"]
             ++ List.map (fun c => stdout (Utf8.toString c)) chunks
             ++ [cb None]
       /\ Forall (fun e => quiet e = true) pre)
   /\ completions (do_raw P opts args w) = [None]
   /\ (verbose opts = false -> include opts = false ->
       stdout_text (do_raw P opts args w)
       = concat_text (List.map Utf8.toString chunks)))
  /\ (res_events w = List.map Data chunks ->
      completions (do_raw P opts args w) = [])
  /\ concat_text (List.map Utf8.toString
                    [list_byte_of_string "foo"; list_byte_of_string "bar"])
     = "foobar".
Proof.
  intros Hsent Hm Hok Hstatus.
  destruct (do_raw_sent P opts args w Hsent) as (pre & Heq & Hq & Hout).
  assert (HT := response_trace_quiet P opts (resolve_method opts) (res w)).
  fold (response_trace P opts w) in HT.
  assert (Hbody : handle_body (resolve_method opts) w
                  = [res_on "data"; res_on "end"]
                    ++ List.flat_map on_res_event (res_events w)).
  { unfold handle_body.
    rewrite (head_eqb_false _ Hm), (success_has_no_error w Hok Hstatus).
    reflexivity. }
  assert (Hshape : do_raw P opts args w
                   = pre ++ req_end :: response_trace P opts w
                         ++ [res_on "data"; res_on "end"]
                         ++ List.flat_map on_res_event (res_events w)).
  { rewrite Heq. unfold onResult, response_trace. rewrite Hbody. reflexivity. }
  split; [| split; [| reflexivity]].
  - intros Hev. rewrite Hev, List.flat_map_app, data_events in Hshape.
    cbn [List.flat_map on_res_event app] in Hshape.
    split; [exists pre; split; assumption |].
    split.
    + rewrite Hshape, completions_after_request by assumption.
      change (completions
                (List.map (fun c => stdout (Utf8.toString c)) chunks
                 ++ [cb None]) = [None]).
      rewrite completions_app.
      rewrite (quiet_completions (List.map _ chunks)); [reflexivity |].
      apply List.Forall_map, Forall_forall. reflexivity.
    + intros Hv Hi. rewrite Hshape, stdout_text_app, (Hout Hv).
      unfold response_trace. rewrite response_trace_cases, Hv, Hi.
      rewrite (head_eqb_false _ Hm). cbn [orb app stdout_text].
      rewrite stdout_text_chunks. cbn [stdout_text]. apply append_nil_r.
  - intros Hev. rewrite Hev, data_events in Hshape.
    rewrite Hshape, completions_after_request by assumption.
    change (completions
              (List.map (fun c => stdout (Utf8.toString c)) chunks) = []).
    rewrite (quiet_completions (List.map _ chunks)); [reflexivity |].
    apply List.Forall_map, Forall_forall. reflexivity.
Qed.

Lemma raw_success_body_streamed_witness :
  let w := Demo.ok_world [Data (list_byte_of_string "foo");
                          Data (list_byte_of_string "bar"); End] in
  completions (do_raw Demo.platform Demo.no_opts ["/buckets"] w) = [None]
  /\ stdout_text (do_raw Demo.platform Demo.no_opts ["/buckets"] w) = "foobar".
Proof.
  intros w.
  assert (Hsent : req_end ∈ do_raw Demo.platform Demo.no_opts ["/buckets"] w).
  { do 2 apply list_elem_of_further. apply list_elem_of_here. }
  assert (Hok : transport_ok w).
  { split; [intros [e He]; discriminate He | intros Hge; vm_compute in Hge;
                                             exfalso; apply Hge; reflexivity]. }
  destruct (raw_success_body_streamed Demo.platform Demo.no_opts ["/buckets"] w
              [list_byte_of_string "foo"; list_byte_of_string "bar"]
              Hsent ltac:(discriminate) Hok ltac:(reflexivity))
    as (Hrun & _ & Hfoobar).
  destruct (Hrun eq_refl) as (_ & Hdone & Hout).
  split; [exact Hdone |].
  rewrite <- Hfoobar. apply Hout; reflexivity.
Defined.

(** ** Repeated header flags *)

Lemma distinct_elem (l : list string) (x : string) :
  x ∈ l -> x ∈ distinct l.
Proof.
  induction l as [| y l IH]; intros Hin; [inversion Hin |].
  cbn [distinct]. destruct (decide (x = y)) as [-> | Hne];
    [apply list_elem_of_here |].
  apply list_elem_of_further, list_elem_of_filter. split; [exact Hne |].
  apply IH. apply elem_of_cons in Hin as [Heq | Hin]; [contradiction | exact Hin].
Qed.

Lemma obj_has_keys {V} (k : string) (o : obj V) :
  obj_has k o = true <-> k ∈ obj_keys o.
Proof.
  unfold obj_keys. induction o as [| [k' v'] o IH]; cbn [obj_has].
  - split; [discriminate | intros H; inversion H].
  - rewrite fmap_cons, elem_of_cons, orb_true_iff, IH. cbn [fst].
    destruct (String.eqb_spec k' k); intuition congruence.
Qed.

Lemma obj_has_false {V} (k : string) (o : obj V) :
  obj_has k o = false <-> k ∉ obj_keys o.
Proof.
  rewrite <- obj_has_keys. destruct (obj_has k o); intuition congruence.
Qed.


Lemma obj_get_replace_eq {V} (k : string) (v : V) (o : obj V) :
  obj_has k o = true -> obj_get k (obj_replace k v o) = Some v.
Proof.
  induction o as [| [k' v'] o IH]; cbn [obj_has obj_replace]; [discriminate |].
  destruct (String.eqb k' k) eqn:E; cbn [orb obj_get].
  - intros _. rewrite String.eqb_refl. reflexivity.
  - intros H. rewrite E. exact (IH H).
Qed.

Lemma obj_get_replace_ne {V} (k k' : string) (v : V) (o : obj V) :
  k <> k' -> obj_get k' (obj_replace k v o) = obj_get k' o.
Proof.
  intros Hne. induction o as [| [k0 v0] o IH]; cbn [obj_replace obj_get];
    [reflexivity |].
  destruct (String.eqb_spec k0 k) as [-> | Hk]; cbn [obj_get].
  - destruct (String.eqb_spec k k'); [contradiction | reflexivity].
  - rewrite IH. reflexivity.
Qed.

Lemma obj_get_insert_eq {V} (k : string) (v : V) (o : obj V) :
  obj_has k o = false -> obj_get k (obj_insert k v o) = Some v.
Proof.
  induction o as [| [k' v'] o IH]; cbn [obj_has obj_insert obj_get].
  - intros _. rewrite String.eqb_refl. reflexivity.
  - intros H. apply orb_false_iff in H as [Hk Ho].
    destruct (goes_before k k'); cbn [obj_get].
    + rewrite String.eqb_refl. reflexivity.
    + rewrite Hk. exact (IH Ho).
Qed.

Lemma obj_get_insert_ne {V} (k k' : string) (v : V) (o : obj V) :
  k <> k' -> obj_get k' (obj_insert k v o) = obj_get k' o.
Proof.
  intros Hne. induction o as [| [k0 v0] o IH]; cbn [obj_insert obj_get].
  - destruct (String.eqb_spec k k'); [contradiction | reflexivity].
  - destruct (goes_before k k0); cbn [obj_get].
    + destruct (String.eqb_spec k k'); [contradiction | reflexivity].
    + rewrite IH. reflexivity.
Qed.

(** Writing a property, then reading it. *)
Lemma obj_get_put_eq {V} (k : string) (v : V) (o : obj V) :
  obj_get k (obj_put k v o) = Some v.
Proof.
  unfold obj_put. destruct (obj_has k o) eqn:H;
    [apply obj_get_replace_eq | apply obj_get_insert_eq]; exact H.
Qed.

Lemma obj_get_put_ne {V} (k k' : string) (v : V) (o : obj V) :
  k <> k' -> obj_get k' (obj_put k v o) = obj_get k' o.
Proof.
  intros Hne. unfold obj_put. destruct (obj_has k o);
    [apply obj_get_replace_ne | apply obj_get_insert_ne]; exact Hne.
Qed.



Lemma obj_keys_replace {V} (k : string) (v : V) (o : obj V) :
  obj_keys (obj_replace k v o) = obj_keys o.
Proof.
  unfold obj_keys. induction o as [| [k' v'] o IH]; cbn [obj_replace];
    [reflexivity |].
  destruct (String.eqb_spec k' k) as [-> | Hk]; rewrite !fmap_cons;
    cbn [fst]; [reflexivity | rewrite IH; reflexivity].
Qed.


(** A name that is no array index goes to the end. *)
Lemma obj_insert_last {V} (k : string) (v : V) (o : obj V) :
  array_index k = None -> obj_insert k v o = o ++ [(k, v)].
Proof.
  intros Hk. induction o as [| [k' v'] o IH]; cbn [obj_insert app];
    [reflexivity |].
  unfold goes_before. rewrite Hk, IH. reflexivity.
Qed.
















(** What the signer writes last under a name is what the object holds. *)
Lemma sets_get_last (sets hs : list (string * string)) (k : string) :
  obj_get k (foldl (fun o kv => obj_put (fst kv) (snd kv) o) hs sets)
  = match last (filter (fun kv => fst kv = k) sets) with
    | Some kv => Some (snd kv)
    | None => obj_get k hs
    end.
Proof.
  induction sets as [| kv sets IH] using rev_ind; [reflexivity |].
  rewrite foldl_snoc, filter_app.
  destruct (decide (fst kv = k)) as [<- | Hne].
  - rewrite obj_get_put_eq, filter_cons_True by reflexivity.
    rewrite filter_nil, last_snoc. reflexivity.
  - rewrite obj_get_put_ne by exact Hne.
    rewrite filter_cons_False by exact Hne.
    rewrite filter_nil, app_nil_r. exact IH.
Qed.

Lemma add_headers_inr (raws : list string) (acc hs : obj string) :
  add_headers raws acc = inr hs ->
  hs = foldl (fun o raw => obj_set (header_name raw) (header_value raw) o)
         acc raws.
Proof.
  revert acc. induction raws as [| raw raws IH]; intros acc; cbn [add_headers].
  - intros [= <-]. reflexivity.
  - destruct (JS.indexOf ":" raw <? 0); [discriminate |].
    intros H. apply IH in H. exact H.
Qed.

Lemma console_logs_no_dispatch {A} (f : A -> string) (l : list A) :
  Forall (fun e => is_dispatch e = false)
         (List.map (fun x => console_log (f x)) l).
Proof. apply List.Forall_map, Forall_forall. reflexivity. Qed.

(** Signing and the call of the HTTP client happen once, before anything
    else of the request. *)
Lemma onRequest_no_dispatch (P : platform) (opts : raw_opts) (m : string)
    (ro : req_opts) (w : world) :
  Forall (fun e => is_dispatch e = false) (onRequest P opts m ro w).
Proof.
  unfold onRequest. destruct (reqErr w); [repeat constructor |].
  apply Forall_app. split.
  - unfold send_request. repeat (apply Forall_app; split).
    + destruct (verbose opts); [| constructor].
      constructor; [reflexivity |]. apply Forall_app. split.
      * apply (console_logs_no_dispatch
                 (fun kv => "> " +:+ fst kv +:+ ": " +:+ snd kv)).
      * repeat constructor.
    + destruct (JS.truthy (data opts)); [| constructor].
      apply Forall_app. split; [| repeat constructor].
      destruct (verbose opts); [| constructor].
      apply (console_logs_no_dispatch (fun line => "> " +:+ line)).
    + repeat constructor.
  - unfold onResult. apply Forall_app. split.
    + unfold write_response_trace. apply List.Forall_flat_map, Forall_forall.
      intros line _. unfold writeResLine.
      destruct (verbose opts), (include opts || String.eqb m "HEAD");
        repeat constructor.
    + unfold handle_body. destruct (String.eqb m "HEAD"); [repeat constructor |].
      destruct (resErr w) as [e |].
      * destruct (err_body e) as [b |]; [| repeat constructor].
        destruct (Json.truthy b); [| repeat constructor].
        destruct (String.eqb (Json.typeof b) "object"); [repeat constructor |].
        destruct b; repeat constructor.
      * repeat (constructor; [reflexivity |]).
        apply List.Forall_flat_map, Forall_forall.
        intros [chunk |] _; repeat constructor.
Qed.

Lemma do_raw_dispatched (P : platform) (opts : raw_opts) (args : list string)
    (w : world) (mf : string) (ro : req_opts) :
  request mf ro ∈ do_raw P opts args w ->
  exists hs,
    add_headers (default [] (header opts)) [] = inr hs
    /\ req_headers ro = signed w hs
    /\ signRequest hs ∈ do_raw P opts args w.
Proof.
  unfold do_raw.
  assert (Hno : forall e, request mf ro ∈ [e] -> is_dispatch e = false -> False).
  { intros e H He. apply list_elem_of_singleton in H. subst. discriminate. }
  destruct (help opts); [intros H; destruct (Hno _ H eq_refl) |].
  destruct (Z.of_nat (length args) <? 1); [intros H; destruct (Hno _ H eq_refl) |].
  destruct (lookup_method_func (resolve_method opts)) as [f |];
    [| intros H; destruct (Hno _ H eq_refl)].
  destruct (JS.truthy (host _)); [intros H; destruct (Hno _ H eq_refl) |].
  destruct (JS.truthy (port _)); [intros H; destruct (Hno _ H eq_refl) |].
  destruct (add_headers _ _) as [e | hs]; [intros H; destruct (Hno _ H eq_refl) |].
  intros H. exists hs. split; [reflexivity |]. split; [| apply list_elem_of_here].
  apply elem_of_cons in H as [H | H]; [discriminate |].
  destruct (signErr w); [destruct (Hno _ H eq_refl) |].
  destruct f as [name |]; [| destruct (Hno _ H eq_refl)].
  apply elem_of_cons in H as [H | H]; [injection H as -> ->; reflexivity |].
  pose proof (onRequest_no_dispatch P opts (resolve_method opts)
                (mkReqOpts (signed w hs)
                   (let p := client_path P (pathname (url_parse P (List.nth 0 args ""))) in
                    if JS.truthy (search (url_parse P (List.nth 0 args "")))
                    then p +:+ JS.show "" (search (url_parse P (List.nth 0 args "")))
                    else p)) w) as Hall.
  rewrite Forall_forall in Hall. specialize (Hall _ H). discriminate.
Qed.





(** * More of [do_raw] and [do_info] *)

(** ** The run of [do_raw], stage by stage *)

Lemma do_raw_prepare (P : platform) (opts : raw_opts) (args : list string)
    (w : world) :
  do_raw P opts args w
  = match prepare P opts args with
    | Stopped tr => tr
    | Ready mf hs p =>
        signRequest hs
        :: match signErr w with
           | Some e => [cb (Some e)]
           | None =>
               request mf (mkReqOpts (signed w hs) p)
               :: onRequest P opts (resolve_method opts)
                    (mkReqOpts (signed w hs) p) w
           end
    | Misnamed hs =>
        signRequest hs
        :: match signErr w with
           | Some e => [cb (Some e)]
           | None => [throw not_a_function]
           end
    end.
Proof.
  unfold do_raw, prepare, target_path.
  destruct (help opts); [reflexivity |].
  destruct (Z.of_nat (length args) <? 1); [reflexivity |].
  destruct (lookup_method_func (resolve_method opts)) as [f |]; [| reflexivity].
  destruct (JS.truthy (host _)); [reflexivity |].
  destruct (JS.truthy (port _)); [reflexivity |].
  destruct (add_headers _ _); [reflexivity |].
  destruct f; reflexivity.
Qed.

(** A run that ends before signing consists of one effect: the help, an
    error for the callback, or an exception. *)
Lemma prepare_stopped (P : platform) (opts : raw_opts) (args : list string)
    (tr : list effect) :
  prepare P opts args = Stopped tr ->
  (help opts = true /\ tr = [do_help])
  \/ (help opts = false
      /\ exists e, tr = [cb (Some e)] \/ tr = [throw e]).
Proof.
  unfold prepare. destruct (help opts); [intros [= <-]; left; auto |].
  intros H. right. split; [reflexivity |]. revert H.
  destruct (Z.of_nat (length args) <? 1); [intros [= <-]; eauto |].
  destruct (lookup_method_func (resolve_method opts)) as [f |];
    [| intros [= <-]; eauto].
  destruct (JS.truthy (host _)); [intros [= <-]; eauto |].
  destruct (JS.truthy (port _)); [intros [= <-]; eauto |].
  destruct (add_headers _ _); [intros [= <-]; eauto |].
  destruct f; discriminate.
Qed.

Lemma prepare_ready (P : platform) (opts : raw_opts) (args : list string)
    (mf : string) (hs : obj string) (p : string) :
  prepare P opts args = Ready mf hs p ->
  help opts = false
  /\ args <> []
  /\ obj_get (resolve_method opts) methodFuncs = Some mf
  /\ JS.truthy (host (url_parse P (List.nth 0 args ""))) = false
  /\ JS.truthy (port (url_parse P (List.nth 0 args ""))) = false
  /\ add_headers (default [] (header opts)) [] = inr hs
  /\ p = target_path P (List.nth 0 args "").
Proof.
  unfold prepare. destruct (help opts); [discriminate |].
  destruct args as [| a rest]; [discriminate |].
  rewrite one_argument.
  destruct (lookup_method_func (resolve_method opts)) as [f |] eqn:Hf;
    [| discriminate].
  destruct (JS.truthy (host _)) eqn:Hh; [discriminate |].
  destruct (JS.truthy (port _)) eqn:Hp; [discriminate |].
  destruct (add_headers _ _); [discriminate |].
  destruct f as [name |]; [| discriminate].
  intros [= <- <- <-]. apply lookup_FuncName in Hf. repeat split; auto.
Qed.

(** A method that names an inherited property passes every check. *)
Lemma prepare_misnamed (P : platform) (opts : raw_opts) (args : list string)
    (hs : obj string) :
  prepare P opts args = Misnamed hs ->
  help opts = false
  /\ args <> []
  /\ resolve_method opts ∈ Object_prototype_names
  /\ add_headers (default [] (header opts)) [] = inr hs.
Proof.
  unfold prepare. destruct (help opts); [discriminate |].
  destruct args as [| a rest]; [discriminate |].
  rewrite one_argument.
  destruct (lookup_method_func (resolve_method opts)) as [f |] eqn:Hf;
    [| discriminate].
  destruct (JS.truthy (host _)); [discriminate |].
  destruct (JS.truthy (port _)); [discriminate |].
  destruct (add_headers _ _); [discriminate |].
  destruct f as [name |]; [discriminate |].
  intros [= <-]. apply lookup_Inherited in Hf. repeat split; tauto || auto.
Qed.

Lemma throws_app (a b : list effect) : throws (a ++ b) = throws a ++ throws b.
Proof. unfold throws. apply omap_app. Qed.

Lemma quiet_throws (tr : list effect) :
  Forall (fun e => quiet e = true) tr -> throws tr = [].
Proof.
  induction 1 as [| e tr He _ IH]; [reflexivity |].
  destruct e; try discriminate; exact IH.
Qed.

(** Membership in a run that ended before signing. *)
Lemma stopped_elem (P : platform) (opts : raw_opts) (args : list string)
    (tr : list effect) (x : effect) :
  prepare P opts args = Stopped tr ->
  x ∈ tr ->
  x = do_help \/ exists e, x = cb (Some e) \/ x = throw e.
Proof.
  intros Hprep Hin.
  destruct (prepare_stopped P opts args tr Hprep)
    as [[_ ->] | [_ (e & [-> | ->])]];
    apply list_elem_of_singleton in Hin; subst; eauto.
Qed.

(** Case analysis on membership in an explicit list of effects. *)
Ltac elem_cases H :=
  repeat (apply elem_of_cons in H as [H | H]; [try discriminate H |]);
  try (apply elem_of_nil in H; contradiction).

Lemma stream_completions (events : list res_event) :
  length (completions (List.flat_map on_res_event events)) = ends events
  /\ throws (List.flat_map on_res_event events) = [].
Proof.
  induction events as [| [chunk |] rest [IHc IHt]]; [split; reflexivity | |].
  - split; [exact IHc | exact IHt].
  - split; [cbn; f_equal; exact IHc | exact IHt].
Qed.

(** ** Failures of signing and of the HTTP client *)





(** X3: without [--help], [do_raw] prints nothing, puts no handler on the
    response and never reports success unless the request has been sent:
    every error met before leaves stdout empty (lines 31-183).  With
    [--help] the run is the one of the help command, whose code is
    elsewhere. *)
Theorem raw_quiet_unless_sent (P : platform) (opts : raw_opts)
    (args : list string) (w : world) (x : effect) :
  help opts = false ->
  x ∈ do_raw P opts args w ->
  (exists t, x = stdout t) \/ (exists ev, x = res_on ev) \/ x = cb None ->
  req_end ∈ do_raw P opts args w.
Proof.
  intros _. rewrite do_raw_prepare.
  destruct (prepare P opts args) as [tr | mf hs p | hs] eqn:Hprep.
  - intros Hin Hx.
    destruct (stopped_elem P opts args tr x Hprep Hin) as [-> | (e & [-> | ->])];
      destruct Hx as [[t Ht] | [[ev Hev] | Hcb]]; discriminate.
  - destruct (signErr w).
    { intros Hin Hx. elem_cases Hin; subst;
        destruct Hx as [[t Ht] | [[ev Hev] | Hcb]]; discriminate. }
    unfold onRequest. destruct (reqErr w).
    { intros Hin Hx. elem_cases Hin; subst;
        destruct Hx as [[t Ht] | [[ev Hev] | Hcb]]; discriminate. }
    intros _ _.
    destruct (send_request_split opts (resolve_method opts)
                (mkReqOpts (signed w hs) p)) as (pre & -> & _).
    do 2 apply list_elem_of_further.
    apply elem_of_app. left. apply elem_of_app. right. apply list_elem_of_here.
  - intros Hin Hx. destruct (signErr w); elem_cases Hin; subst;
      destruct Hx as [[t Ht] | [[ev Hev] | Hcb]]; discriminate.
Qed.

Lemma raw_quiet_unless_sent_witness :
  req_end ∈ do_raw Demo.platform Demo.no_opts ["/buckets"] (Demo.ok_world [End]).
Proof.
  apply (raw_quiet_unless_sent Demo.platform Demo.no_opts ["/buckets"]
           (Demo.ok_world [End]) (cb None)).
  - reflexivity.
  - do 5 apply list_elem_of_further. apply list_elem_of_here.
  - right. right. reflexivity.
Defined.

(** ** How a run ends *)

Lemma handle_body_ends_once (m : string) (w : world) :
  ends (res_events w) = 1%nat ->
  (length (completions (handle_body m w))
   + length (throws (handle_body m w)) = 1)%nat.
Proof.
  intros Hends. unfold handle_body.
  destruct (String.eqb m "HEAD"); [reflexivity |].
  destruct (resErr w) as [e |].
  - destruct (err_body e) as [b |]; [| reflexivity].
    destruct (Json.truthy b); [| reflexivity].
    destruct (String.eqb (Json.typeof b) "object"); [reflexivity |].
    destruct b; reflexivity.
  - destruct (stream_completions (res_events w)) as [Hc Ht].
    change (length (completions (List.flat_map on_res_event (res_events w)))
            + length (throws (List.flat_map on_res_event (res_events w)))
            = 1)%nat.
    rewrite Hc, Ht, Hends. reflexivity.
Qed.

(** X4: a run of [do_raw] without [--help], on a response stream that ends
    once, ends exactly once: either the callback is called one time or one
    exception escapes, never both and never twice (lines 27-183). *)
Theorem raw_ends_once (P : platform) (opts : raw_opts) (args : list string)
    (w : world) :
  help opts = false ->
  ends (res_events w) = 1%nat ->
  (length (completions (do_raw P opts args w))
   + length (throws (do_raw P opts args w)) = 1)%nat.
Proof.
  intros Hhelp Hends. rewrite do_raw_prepare.
  destruct (prepare P opts args) as [tr | mf hs p | hs] eqn:Hprep.
  3: { destruct (signErr w); reflexivity. }
  - destruct (prepare_stopped P opts args tr Hprep)
      as [[Hh _] | [_ (e & [-> | ->])]]; [congruence | reflexivity | reflexivity].
  - destruct (signErr w); [reflexivity |].
    unfold onRequest. destruct (reqErr w); [reflexivity |].
    destruct (send_request_split opts (resolve_method opts)
                (mkReqOpts (signed w hs) p)) as (pre & -> & Hq & _).
    unfold onResult.
    assert (HT := response_trace_quiet P opts (resolve_method opts) (res w)).
    change (length (completions
                      ((pre ++ [req_end])
                       ++ write_response_trace P opts (resolve_method opts) (res w)
                       ++ handle_body (resolve_method opts) w))
            + length (throws
                        ((pre ++ [req_end])
                         ++ write_response_trace P opts (resolve_method opts) (res w)
                         ++ handle_body (resolve_method opts) w)) = 1)%nat.
    rewrite !completions_app, !throws_app.
    rewrite (quiet_completions pre Hq), (quiet_throws pre Hq).
    rewrite (quiet_completions _ HT), (quiet_throws _ HT).
    apply handle_body_ends_once. exact Hends.
Qed.

Lemma raw_ends_once_witness :
  completions (do_raw Demo.platform Demo.no_opts ["http://example.com/"]
                 (Demo.ok_world [End])) = []
  /\ length (throws (do_raw Demo.platform Demo.no_opts ["http://example.com/"]
                       (Demo.ok_world [End]))) = 1%nat.
Proof.
  split; [reflexivity |].
  apply (raw_ends_once Demo.platform Demo.no_opts ["http://example.com/"]
           (Demo.ok_world [End])); reflexivity.
Defined.

(** ** The request *)

Lemma onResult_outcomes (P : platform) (opts : raw_opts) (m : string)
    (w : world) :
  Forall (fun e => is_outcome e = true) (onResult P opts m w).
Proof.
  unfold onResult. apply Forall_app. split.
  - unfold write_response_trace. apply List.Forall_flat_map, Forall_forall.
    intros line _. unfold writeResLine.
    destruct (verbose opts), (include opts || String.eqb m "HEAD");
      repeat constructor.
  - unfold handle_body. destruct (String.eqb m "HEAD"); [repeat constructor |].
    destruct (resErr w) as [e |].
    + destruct (err_body e) as [b |]; [| repeat constructor].
      destruct (Json.truthy b); [| repeat constructor].
      destruct (String.eqb (Json.typeof b) "object"); [repeat constructor |].
      destruct b; repeat constructor.
    + repeat (constructor; [reflexivity |]).
      apply List.Forall_flat_map, Forall_forall.
      intros [chunk |] _; repeat constructor.
Qed.

(** The effects of [send_request], regrouped. *)
Lemma send_request_parts (opts : raw_opts) (ro : req_opts) :
  send_request opts (resolve_method opts) ro
  = (if verbose opts then List.map console_log (request_lines opts ro) else [])
    ++ upload opts ++ [req_end].
Proof.
  unfold send_request, request_lines, upload, JS.truthy.
  destruct (data opts) as [d |]; cbn [JS.show negb].
  - destruct (String.eqb d ""), (verbose opts); cbn [negb app List.map];
      repeat (progress (rewrite ?app_nil_r, ?List.map_app, ?List.map_map;
                        cbn [List.map app]));
      rewrite <- ?List.app_assoc; reflexivity.
  - destruct (verbose opts); cbn [app List.map];
      repeat (progress (rewrite ?app_nil_r, ?List.map_app, ?List.map_map;
                        cbn [List.map app]));
      reflexivity.
Qed.

(** X5: the HTTP client is called at most once, directly after a signing
    that reported no error, through the function named by the table for the
    resolved method, on the path [client.path(pathname)] followed by the
    query string of the argument (lines 47-71 and 96-104). *)
Theorem raw_dispatch_once (P : platform) (opts : raw_opts)
    (args : list string) (w : world) (mf : string) (ro : req_opts) :
  request mf ro ∈ do_raw P opts args w ->
  let parsed := url_parse P (List.nth 0 args "") in
  signErr w = None
  /\ obj_get (resolve_method opts) methodFuncs = Some mf
  /\ req_path ro
     = client_path P (pathname parsed)
       +:+ (if JS.truthy (search parsed) then JS.show "" (search parsed) else "")
  /\ exists hs rest,
       do_raw P opts args w = signRequest hs :: request mf ro :: rest
       /\ Forall (fun e => is_dispatch e = false) rest.
Proof.
  rewrite do_raw_prepare.
  destruct (prepare P opts args) as [tr | mf0 hs p | hs] eqn:Hprep.
  3: { intros H. destruct (signErr w); elem_cases H. }
  - intros H. destruct (stopped_elem P opts args tr _ Hprep H)
      as [? | (x & [? | ?])]; discriminate.
  - destruct (prepare_ready P opts args mf0 hs p Hprep)
      as (_ & _ & Hmf & _ & _ & _ & Hp).
    destruct (signErr w); [intros H; elem_cases H |].
    intros H parsed.
    assert (Hrest := onRequest_no_dispatch P opts (resolve_method opts)
                       (mkReqOpts (signed w hs) p) w).
    apply elem_of_cons in H as [H | H]; [discriminate |].
    apply elem_of_cons in H as [H | H].
    + injection H as -> ->. repeat split; [exact Hmf | | eauto].
      cbn [req_path]. rewrite Hp. unfold target_path. fold parsed.
      destruct (JS.truthy (search parsed)); [reflexivity |].
      symmetry. apply append_nil_r.
    + rewrite Forall_forall in Hrest. specialize (Hrest _ H). discriminate.
Qed.

Lemma raw_dispatch_once_witness :
  let ro := mkReqOpts [("authorization", "Signature x")] "/buckets?limit=2" in
  obj_get "GET" methodFuncs = Some "get"
  /\ req_path ro = "/buckets" +:+ "?limit=2".
Proof.
  intros ro.
  destruct (raw_dispatch_once Demo.platform Demo.no_opts ["/buckets?limit=2"]
              (Demo.ok_world [End]) "get" ro) as (_ & Hmf & Hpath & _).
  - apply list_elem_of_further, list_elem_of_here.
  - split; [exact Hmf | exact Hpath].
Defined.

(** X6: in a run that sends the request, [req.end()] is called exactly
    once; a non-empty [--data] is written to the request, unchanged and one
    time, directly before it, and without [--data] (or with an empty one)
    nothing is written to the request (lines 172-180). *)
Theorem raw_request_body (P : platform) (opts : raw_opts)
    (args : list string) (w : world) :
  req_end ∈ do_raw P opts args w ->
  exists pre post,
    do_raw P opts args w = pre ++ upload opts ++ req_end :: post
    /\ Forall (fun e => is_upload e = false) pre
    /\ Forall (fun e => is_upload e = false) post.
Proof.
  rewrite do_raw_prepare.
  destruct (prepare P opts args) as [tr | mf hs p | hs] eqn:Hprep.
  3: { intros H. destruct (signErr w); elem_cases H. }
  - intros H. destruct (stopped_elem P opts args tr _ Hprep H)
      as [? | (x & [? | ?])]; discriminate.
  - destruct (signErr w); [intros H; elem_cases H |].
    unfold onRequest. destruct (reqErr w); [intros H; elem_cases H |].
    intros _. rewrite send_request_parts.
    exists (signRequest hs :: request mf (mkReqOpts (signed w hs) p)
            :: (if verbose opts
                then List.map console_log
                       (request_lines opts (mkReqOpts (signed w hs) p))
                else [])),
      (onResult P opts (resolve_method opts) w).
    split; [| split].
    + cbn [app]. rewrite <- !List.app_assoc. reflexivity.
    + repeat (constructor; [reflexivity |]).
      destruct (verbose opts); [| constructor].
      apply List.Forall_map, Forall_forall. reflexivity.
    + eapply Forall_impl; [apply onResult_outcomes |].
      intros e He. destruct e; try discriminate; reflexivity.
Qed.

Lemma raw_request_body_witness :
  let opts := mkOpts false false None None false (Some "{}") in
  exists pre post,
    do_raw Demo.platform opts ["/buckets/b"] (Demo.ok_world [End])
    = pre ++ [req_write "{}"] ++ req_end :: post
    /\ Forall (fun e => is_upload e = false) pre
    /\ Forall (fun e => is_upload e = false) post.
Proof.
  intros opts.
  apply (raw_request_body Demo.platform opts ["/buckets/b"]
           (Demo.ok_world [End])).
  do 3 apply list_elem_of_further. apply list_elem_of_here.
Defined.

(** ** The data echoed by [--verbose] *)

Lemma split_lines_cons (s : string) :
  exists l ls, JS.split_lines s = l :: ls.
Proof.
  induction s as [| a s (l & ls & IH)]; cbn [JS.split_lines]; [eauto |].
  destruct (Ascii.eqb a "010"); [eauto |]. rewrite IH. eauto.
Qed.

(** X7: [split(/\n/g)] as [do_raw] uses it to echo [--data]: there is at
    least one line, no line contains a line feed, and the lines joined by
    line feeds are the data again (lines 173-177). *)
Theorem raw_data_lines (d : string) :
  JS.split_lines d <> []
  /\ Forall (fun l => occurs "010" l = false) (JS.split_lines d)
  /\ String.concat nl (JS.split_lines d) = d.
Proof.
  split; [destruct (split_lines_cons d) as (l & ls & ->); discriminate |].
  induction d as [| a d [IHf IHj]]; cbn [JS.split_lines].
  - split; [repeat constructor | reflexivity].
  - destruct (split_lines_cons d) as (l & ls & Hd). rewrite Hd in *.
    destruct (Ascii.eqb_spec a "010") as [-> | Hne].
    + split; [constructor; [reflexivity | exact IHf] |].
      change (nl +:+ String.concat nl (l :: ls) = String "010" d).
      rewrite IHj. reflexivity.
    + apply Forall_cons in IHf as [Hl Hls]. split.
      * constructor; [| exact Hls]. cbn [occurs]. rewrite Hl.
        destruct (Ascii.eqb_spec a "010"); [contradiction | reflexivity].
      * destruct ls as [| l' ls'].
        -- cbn [String.concat] in *. rewrite IHj. reflexivity.
        -- change (String a (l +:+ nl +:+ String.concat nl (l' :: ls'))
                   = String a d).
           f_equal. exact IHj.
Qed.

(** ** Error responses *)

(** X8: an error object without a body, or with a body that is [null],
    [false], [0] or the empty text, makes a method other than HEAD write the
    response trace only and complete without error (lines 139-152). *)
Theorem raw_error_without_body (P : platform) (opts : raw_opts)
    (args : list string) (w : world) (e : res_error) :
  req_end ∈ do_raw P opts args w ->
  resolve_method opts <> "HEAD" ->
  resErr w = Some e ->
  err_body e = None
  \/ (exists b, err_body e = Some b /\ Json.truthy b = false) ->
  (exists pre,
      do_raw P opts args w
      = pre ++ req_end :: response_trace P opts w ++ [cb None]
      /\ Forall (fun x => quiet x = true) pre)
  /\ completions (do_raw P opts args w) = [None]
  /\ (verbose opts = false -> include opts = false ->
      stdout_text (do_raw P opts args w) = "").
Proof.
  intros Hsent Hm Herr Hbody.
  destruct (do_raw_sent P opts args w Hsent) as (pre & Heq & Hq & Hout).
  assert (Hb : handle_body (resolve_method opts) w = [cb None]).
  { unfold handle_body. rewrite (head_eqb_false _ Hm), Herr.
    destruct Hbody as [-> | (b & -> & ->)]; reflexivity. }
  assert (Hshape : do_raw P opts args w
                   = pre ++ req_end :: response_trace P opts w ++ [cb None]).
  { rewrite Heq. unfold onResult, response_trace. rewrite Hb. reflexivity. }
  assert (HT := response_trace_quiet P opts (resolve_method opts) (res w)).
  fold (response_trace P opts w) in HT.
  split; [exists pre; split; assumption |].
  split; [rewrite Hshape; apply completions_after_request; assumption |].
  intros Hv Hi. rewrite Hshape, stdout_text_app, (Hout Hv).
  unfold response_trace. rewrite response_trace_cases, Hv, Hi.
  rewrite (head_eqb_false _ Hm). reflexivity.
Qed.

Lemma raw_error_without_body_witness :
  let w := Demo.not_found_world (Some (JStr "")) in
  completions (do_raw Demo.platform Demo.no_opts ["/buckets/nope"] w) = [None]
  /\ stdout_text (do_raw Demo.platform Demo.no_opts ["/buckets/nope"] w) = "".
Proof.
  intros w.
  assert (Hsent : req_end ∈ do_raw Demo.platform Demo.no_opts
                              ["/buckets/nope"] w).
  { do 2 apply list_elem_of_further. apply list_elem_of_here. }
  destruct (raw_error_without_body Demo.platform Demo.no_opts
              ["/buckets/nope"] w (mkResError (Some (JStr ""))) Hsent)
    as (_ & Hdone & Hout).
  - discriminate.
  - reflexivity.
  - right. exists (JStr ""). split; reflexivity.
  - split; [exact Hdone | apply Hout; reflexivity].
Defined.

(** X9: when the ['result'] event carries an error object, no handler is
    put on the response stream, and whatever the stream would emit has no
    effect on the run (lines 139-152). *)
Theorem raw_error_ignores_stream (P : platform) (opts : raw_opts)
    (args : list string) (w : world) (e : res_error) :
  resErr w = Some e ->
  (forall ev, res_on ev ∉ do_raw P opts args w)
  /\ (forall events,
        do_raw P opts args (with_body w (Some e) events)
        = do_raw P opts args w).
Proof.
  intros Herr. split.
  - intros ev. rewrite do_raw_prepare.
    destruct (prepare P opts args) as [tr | mf hs p | hs] eqn:Hprep.
    3: { intros H. destruct (signErr w); elem_cases H. }
    + intros H. destruct (stopped_elem P opts args tr _ Hprep H)
        as [? | (x & [? | ?])]; discriminate.
    + destruct (signErr w); [intros H; elem_cases H |].
      unfold onRequest. destruct (reqErr w); [intros H; elem_cases H |].
      destruct (send_request_split opts (resolve_method opts)
                  (mkReqOpts (signed w hs) p)) as (pre & -> & Hq & _).
      assert (HT := response_trace_quiet P opts (resolve_method opts) (res w)).
      assert (Hall : Forall (fun x => x <> res_on ev)
                       (signRequest hs :: request mf (mkReqOpts (signed w hs) p)
                        :: (pre ++ [req_end])
                        ++ onResult P opts (resolve_method opts) w)).
      { repeat (constructor; [discriminate |]).
        apply Forall_app; split; [apply Forall_app; split |];
          [| | unfold onResult; apply Forall_app; split].
        - eapply Forall_impl; [exact Hq |]. intros x Hx ->. discriminate.
        - repeat constructor. discriminate.
        - eapply Forall_impl; [exact HT |]. intros x Hx ->. discriminate.
        - unfold handle_body. rewrite Herr.
          destruct (String.eqb (resolve_method opts) "HEAD");
            [repeat constructor; discriminate |].
          destruct (err_body e) as [b |]; [| repeat constructor; discriminate].
          destruct (Json.truthy b); [| repeat constructor; discriminate].
          destruct (String.eqb (Json.typeof b) "object");
            [repeat constructor; discriminate |].
          destruct b; repeat constructor; discriminate. }
      intros H. rewrite Forall_forall in Hall. exact (Hall _ H eq_refl).
  - intros events.
    unfold do_raw, onRequest, onResult, handle_body, with_body.
    cbn [signErr reqErr resErr res res_events sign_sets signed].
    rewrite Herr. reflexivity.
Qed.

Lemma raw_error_ignores_stream_witness :
  let w := Demo.not_found_world (Some Demo.not_found_body) in
  do_raw Demo.platform Demo.no_opts ["/buckets/nope"]
    (with_body w (Some (mkResError (Some Demo.not_found_body)))
       [Data (list_byte_of_string "late"); End])
  = do_raw Demo.platform Demo.no_opts ["/buckets/nope"] w.
Proof.
  intros w.
  destruct (raw_error_ignores_stream Demo.platform Demo.no_opts
              ["/buckets/nope"] w (mkResError (Some Demo.not_found_body))
              eq_refl) as [_ Hsame].
  apply Hsame.
Defined.

(** ** What a run prints *)

Lemma string_app_assoc (a b c : string) : (a +:+ b) +:+ c = a +:+ b +:+ c.
Proof.
  induction a as [| x a IH]; string_simpl; [reflexivity | f_equal; exact IH].
Qed.

Lemma concat_text_app (a b : list string) :
  concat_text (a ++ b) = concat_text a +:+ concat_text b.
Proof.
  induction a as [| x a IH]; [reflexivity |].
  cbn [app concat_text foldr]. fold (concat_text (a ++ b)).
  fold (concat_text a). rewrite IH, string_app_assoc. reflexivity.
Qed.

Lemma stdout_text_console_logs (lines : list string) :
  stdout_text (List.map console_log lines)
  = concat_text (List.map (fun l => l +:+ nl) lines).
Proof.
  induction lines as [| l ls IH]; [reflexivity |].
  cbn [List.map console_log stdout_text concat_text foldr].
  fold (concat_text (List.map (fun l => l +:+ nl) ls)). rewrite IH.
  reflexivity.
Qed.

Lemma response_trace_lines (P : platform) (opts : raw_opts) (m : string)
    (r : response) :
  write_response_trace P opts m r
  = List.map console_log
      (List.flat_map
         (fun l => (if verbose opts then ["< " +:+ l] else [])
                   ++ (if include opts || String.eqb m "HEAD" then [l] else []))
         (res_lines P r)).
Proof.
  unfold write_response_trace, writeResLine.
  induction (res_lines P r) as [| l ls IH]; [reflexivity |].
  cbn [List.flat_map]. rewrite List.map_app, IH. f_equal.
  destruct (verbose opts), (include opts || String.eqb m "HEAD"); reflexivity.
Qed.

(** X10: what a run that sends the request prints, in this order and
    nothing else: with [--verbose] the request lines; for every line of the
    response trace its copy behind "< " (with [--verbose]) and the line
    itself (with [--include] or method HEAD); then what the body handling
    writes (lines 86-94, 110-129 and 172-177). *)
Theorem raw_stdout_layout (P : platform) (opts : raw_opts)
    (args : list string) (w : world) (mf : string) (ro : req_opts) :
  request mf ro ∈ do_raw P opts args w ->
  req_end ∈ do_raw P opts args w ->
  let m := resolve_method opts in
  stdout_text (do_raw P opts args w)
  = concat_text
      (List.map (fun l => l +:+ nl)
         ((if verbose opts then request_lines opts ro else [])
          ++ List.flat_map
               (fun l => (if verbose opts then ["< " +:+ l] else [])
                         ++ (if include opts || String.eqb m "HEAD"
                             then [l] else []))
               (res_lines P (res w))))
    +:+ stdout_text (handle_body m w).
Proof.
  rewrite do_raw_prepare.
  destruct (prepare P opts args) as [tr | mf0 hs p | hs] eqn:Hprep.
  3: { intros H. destruct (signErr w); elem_cases H. }
  - intros H. destruct (stopped_elem P opts args tr _ Hprep H)
      as [? | (x & [? | ?])]; discriminate.
  - destruct (signErr w); [intros H; elem_cases H |].
    intros Hreq.
    assert (Hro : ro = mkReqOpts (signed w hs) p).
    { apply elem_of_cons in Hreq as [H | H]; [discriminate |].
      apply elem_of_cons in H as [H | H]; [injection H as _ ->; reflexivity |].
      pose proof (onRequest_no_dispatch P opts (resolve_method opts)
                    (mkReqOpts (signed w hs) p) w) as Hall.
      rewrite Forall_forall in Hall. specialize (Hall _ H). discriminate. }
    clear Hreq. rewrite <- Hro.
    unfold onRequest. destruct (reqErr w); [intros H; elem_cases H |].
    intros _. cbv zeta. cbn [stdout_text].
    rewrite send_request_parts. unfold onResult.
    rewrite response_trace_lines, !stdout_text_app.
    rewrite List.map_app, concat_text_app, <- !stdout_text_console_logs.
    assert (Hup : stdout_text (upload opts) = "").
    { unfold upload. destruct (data opts) as [d |]; [| reflexivity].
      destruct (String.eqb d ""); reflexivity. }
    rewrite Hup. change (stdout_text [req_end]) with "".
    string_simpl. rewrite append_nil_r, string_app_assoc.
    destruct (verbose opts); reflexivity.
Qed.

Lemma raw_stdout_layout_witness :
  let opts := mkOpts false true None None true None in
  let w := Demo.ok_world [Data (list_byte_of_string "[]"); End] in
  stdout_text (do_raw Demo.platform opts ["/buckets"] w)
  = concat_text
      (List.map (fun l => l +:+ nl)
         ["> GET /buckets HTTP/1.1"; "> authorization: Signature x"; ">";
          "< HTTP/1.1 200 OK"; "HTTP/1.1 200 OK";
          "< content-type: text/plain"; "content-type: text/plain";
          "< "; ""])
    +:+ "[]".
Proof.
  intros opts w.
  apply (raw_stdout_layout Demo.platform opts ["/buckets"] w "get"
           (mkReqOpts [("authorization", "Signature x")] "/buckets")).
  - apply list_elem_of_further, list_elem_of_here.
  - do 5 apply list_elem_of_further. apply list_elem_of_here.
Defined.

(** ** Where the method and the header error come from *)

(** X11: the resolved method is never empty; without a (non-empty)
    [--method] it is GET or PUT, so a method outside the table, and HEAD,
    can only come from the flag itself (lines 39-58). *)
Theorem raw_method_origin (opts : raw_opts) :
  resolve_method opts <> ""
  /\ (JS.truthy (method opts) = false ->
      resolve_method opts = "GET" \/ resolve_method opts = "PUT")
  /\ (resolve_method opts ∉ supported_methods ->
      method opts = Some (resolve_method opts))
  /\ (resolve_method opts = "HEAD" -> method opts = Some "HEAD").
Proof.
  assert (Hcases :
            (method opts = Some (resolve_method opts)
             /\ resolve_method opts <> ""
             /\ JS.truthy (method opts) = true)
            \/ (JS.truthy (method opts) = false
                /\ (resolve_method opts = "GET" \/ resolve_method opts = "PUT"))).
  { unfold resolve_method, JS.truthy.
    destruct (method opts) as [m |]; cbn [JS.show].
    - destruct (String.eqb_spec m "") as [-> | Hne]; cbn [negb]; [| auto].
      right. split; [reflexivity |].
      destruct (data opts) as [d |]; [destruct (negb (String.eqb d "")) |]; auto.
    - right. split; [reflexivity |].
      destruct (data opts) as [d |]; [destruct (negb (String.eqb d "")) |]; auto. }
  unfold supported_methods.
  destruct Hcases as [(Hm & Hne & Ht) | (Ht & [Hg | Hp])].
  - repeat split; [exact Hne | rewrite Ht; discriminate | intros _; exact Hm |].
    intros Hh. rewrite Hh in Hm. exact Hm.
  - rewrite Hg. repeat split; [discriminate | auto | | discriminate].
    intros H. exfalso. apply H. rewrite !elem_of_cons. auto.
  - rewrite Hp. repeat split; [discriminate | auto | | discriminate].
    intros H. exfalso. apply H. rewrite !elem_of_cons. auto.
Qed.

Lemma raw_method_origin_witness :
  let opts := mkOpts false false (Some "PATCH") None false None in
  method opts = Some "PATCH".
Proof.
  intros opts.
  destruct (raw_method_origin opts) as (_ & _ & Hflag & _).
  apply Hflag. apply methodFunc_None. reflexivity.
Defined.

(** X12: the loop over the [--header] flags succeeds exactly when every
    flag has a colon; otherwise its error names the first flag without one,
    whatever comes after it (lines 72-84). *)
Theorem raw_first_malformed_header (raws : list string) (acc : obj string) :
  ((exists hs, add_headers raws acc = inr hs)
   <-> forall raw, raw ∈ raws -> ~ colon_free raw)
  /\ forall e,
       add_headers raws acc = inl e ->
       exists good bad rest,
         raws = good ++ bad :: rest
         /\ (forall raw, raw ∈ good -> ~ colon_free raw)
         /\ colon_free bad
         /\ e = malformed_header bad.
Proof.
  revert acc. induction raws as [| raw raws IH]; intros acc.
  - split; [split; [intros _ r Hr; inversion Hr | cbn; eauto] |].
    cbn. discriminate.
  - cbn [add_headers].
    destruct (Z.ltb_spec (JS.indexOf ":" raw) 0) as [Hneg | Hpos].
    + assert (Hfree : colon_free raw) by (apply colon_free_indexOf; exact Hneg).
      split.
      * split; [intros [hs Hhs]; discriminate |].
        intros Hall. destruct (Hall raw (list_elem_of_here _ _) Hfree).
      * intros e [= <-]. exists [], raw, raws.
        repeat split; [intros r Hr; inversion Hr | exact Hfree].
    + assert (Hcolon : ~ colon_free raw).
      { intros Hfree. apply colon_free_indexOf in Hfree. lia. }
      destruct (IH (obj_set (JS.substr raw 0 (JS.indexOf ":" raw))
                      (JS.trimLeft (JS.substr_from raw (JS.indexOf ":" raw + 1)))
                      acc)) as [[Hok1 Hok2] Hbad].
      split.
      * split.
        -- intros Hhs r Hr. apply elem_of_cons in Hr as [-> | Hr];
             [exact Hcolon | exact (Hok1 Hhs r Hr)].
        -- intros Hall. apply Hok2. intros r Hr.
           apply Hall, list_elem_of_further. exact Hr.
      * intros e He. destruct (Hbad e He) as (good & bad & rest & -> & Hg & Hb & ->).
        exists (raw :: good), bad, rest. repeat split; [| exact Hb].
        intros r Hr. apply elem_of_cons in Hr as [-> | Hr];
          [exact Hcolon | exact (Hg r Hr)].
Qed.

Lemma raw_first_malformed_header_witness :
  exists good bad rest,
    ["a: 1"; "b"; "c"; "d: 4"] = good ++ bad :: rest
    /\ (forall raw, raw ∈ good -> ~ colon_free raw)
    /\ colon_free bad
    /\ malformed_header "b" = malformed_header bad.
Proof.
  destruct (raw_first_malformed_header ["a: 1"; "b"; "c"; "d: 4"] [])
    as [_ Hbad].
  apply (Hbad (malformed_header "b")). reflexivity.
Defined.

(** ** More of [mbucket info] *)

(** X13: [do_info] makes a HEAD call only without [--help], for exactly one
    argument, and only if [MantaUri] accepts it; with no or several
    arguments, or an argument that [MantaUri] rejects, it ends with a
    [UsageError] (the parser's message in the second case) and no call
    (lines 19-36). *)
Theorem info_usage_errors (P : platform) (help : bool) (args : list string)
    (head : error + response) :
  (forall e, e ∈ do_info P help args head -> is_head e = true ->
     help = false
     /\ exists arg muri, args = [arg] /\ MantaUri P arg = inr muri)
  /\ (help = false -> length args <> 1%nat ->
      do_info P help args head
      = [cb (Some (UsageError "incorrect number of args"))])
  /\ (help = false -> forall arg message,
        args = [arg] -> MantaUri P arg = inl message ->
        do_info P help args head = [cb (Some (UsageError message))]).
Proof.
  unfold do_info. split; [| split].
  - intros e Hin Hhead. destruct help; [elem_cases Hin; subst; discriminate |].
    split; [reflexivity |].
    destruct args as [| arg [| arg' rest]];
      [elem_cases Hin; subst; discriminate | |].
    + cbn [length List.nth Z.of_nat] in Hin.
      change (Z.pos (Pos.of_succ_nat 0) =? 1) with true in Hin.
      cbn [negb] in Hin.
      destruct (MantaUri P arg) as [msg | muri] eqn:Huri;
        [elem_cases Hin; subst; discriminate |].
      exists arg, muri. split; [reflexivity | exact Huri].
    + assert (Hlen : negb (Z.of_nat (length (arg :: arg' :: rest)) =? 1) = true).
      { apply negb_true_iff, Z.eqb_neq. cbn [length]. lia. }
      rewrite Hlen in Hin. elem_cases Hin; subst; discriminate.
  - intros -> Hlen.
    assert (Hne : negb (Z.of_nat (length args) =? 1) = true).
    { apply negb_true_iff, Z.eqb_neq. lia. }
    rewrite Hne. reflexivity.
  - intros -> arg message -> Huri. cbn [length List.nth Z.of_nat].
    change (Z.pos (Pos.of_succ_nat 0) =? 1) with true. cbn [negb].
    rewrite Huri. reflexivity.
Qed.

Lemma info_usage_errors_witness :
  do_info Demo.platform false ["manta:a"; "manta:b"] (inr Demo.ok_response)
  = [cb (Some (UsageError "incorrect number of args"))]
  /\ do_info Demo.platform false ["s3:a"] (inr Demo.ok_response)
     = [cb (Some (UsageError "not a manta URI"))].
Proof.
  split.
  - destruct (info_usage_errors Demo.platform false ["manta:a"; "manta:b"]
                (inr Demo.ok_response)) as (_ & Hcount & _).
    apply Hcount; [reflexivity | discriminate].
  - destruct (info_usage_errors Demo.platform false ["s3:a"]
                (inr Demo.ok_response)) as (_ & _ & Hparse).
    apply (Hparse eq_refl "s3:a"); reflexivity.
Defined.

(** X14: without [--help], [do_info] calls back exactly once and never
    throws; it reports success exactly when it has printed a response, and
    it prints only the response of a HEAD call that succeeded, between that
    call and the callback (lines 38-56). *)
Theorem info_ends_once (P : platform) (args : list string)
    (head : error + response) :
  let tr := do_info P false args head in
  length (completions tr) = 1%nat
  /\ throws tr = []
  /\ (cb None ∈ tr <-> exists r, printBucketObjectInfo r ∈ tr)
  /\ (forall r, printBucketObjectInfo r ∈ tr ->
        head = inr r
        /\ exists call, is_head call = true
                        /\ tr = [call; printBucketObjectInfo r; cb None]).
Proof.
  unfold do_info.
  destruct (negb (Z.of_nat (length args) =? 1)).
  { cbv zeta. repeat split; try reflexivity.
    - intros H. elem_cases H.
    - intros [r H]. elem_cases H.
    - elem_cases H.
    - elem_cases H. }
  destruct (MantaUri P (List.nth 0 args "")) as [msg | muri].
  { cbv zeta. repeat split; try reflexivity.
    - intros H. elem_cases H.
    - intros [r H]. elem_cases H.
    - elem_cases H.
    - elem_cases H. }
  assert (Hcall : is_head (if JS.truthy (object muri)
                           then headBucketObject (bucket muri)
                                  (JS.show "" (object muri))
                           else headBucket (bucket muri)) = true).
  { destruct (JS.truthy (object muri)); reflexivity. }
  destruct head as [err | r0]; cbv zeta.
  - repeat split; try (destruct (JS.truthy (object muri)); reflexivity).
    + intros H. elem_cases H.
      destruct (JS.truthy (object muri)); discriminate.
    + intros [r H]. elem_cases H.
      destruct (JS.truthy (object muri)); discriminate.
    + elem_cases H. destruct (JS.truthy (object muri)); discriminate.
    + elem_cases H. destruct (JS.truthy (object muri)); discriminate.
  - repeat split; try (destruct (JS.truthy (object muri)); reflexivity).
    + intros _. exists r0. apply list_elem_of_further, list_elem_of_here.
    + intros _. do 2 apply list_elem_of_further. apply list_elem_of_here.
    + elem_cases H; [destruct (JS.truthy (object muri)); discriminate |].
      injection H as ->. reflexivity.
    + elem_cases H; [destruct (JS.truthy (object muri)); discriminate |].
      injection H as ->. eexists. split; [exact Hcall | reflexivity].
Qed.

Lemma info_ends_once_witness :
  do_info Demo.platform false ["manta:mybucket"] (inr Demo.ok_response)
  = [headBucket "mybucket"; printBucketObjectInfo Demo.ok_response; cb None].
Proof.
  destruct (info_ends_once Demo.platform ["manta:mybucket"]
              (inr Demo.ok_response)) as (_ & _ & _ & Hprint).
  destruct (Hprint Demo.ok_response) as (_ & call & _ & Hrun).
  - apply list_elem_of_further, list_elem_of_here.
  - rewrite Hrun. injection Hrun as <-. reflexivity.
Defined.

(** ** Decoding the chunks of a body *)

Lemma code_of_byte (b : byte) : N_of_ascii (ascii_of_byte b) = Byte.to_N b.
Proof. destruct b; reflexivity. Qed.

Ltac decide_codes :=
  repeat match goal with
         | |- context [(?a <=? ?b)%N] => destruct (N.leb_spec a b); try lia
         | |- context [(?a =? ?b)%N] => destruct (N.eqb_spec a b); try lia
         end.

Lemma lead_1 (a : ascii) :
  (N_of_ascii a <= 127)%N -> Utf8.lead a = (String a "", Utf8.idle).
Proof. intros H. unfold Utf8.lead. decide_codes. reflexivity. Qed.

Lemma lead_2 (a : ascii) :
  (194 <= N_of_ascii a <= 223)%N ->
  Utf8.lead a = ("", Utf8.mkState (String a "") 1 128 191).
Proof. intros H. unfold Utf8.lead. decide_codes; reflexivity. Qed.

Lemma lead_3 (a : ascii) :
  (224 <= N_of_ascii a <= 239)%N ->
  Utf8.lead a
  = ("", Utf8.mkState (String a "") 2
           (if (N_of_ascii a =? 224)%N then 160%N else 128%N)
           (if (N_of_ascii a =? 237)%N then 159%N else 191%N)).
Proof.
  intros H. unfold Utf8.lead.
  destruct (N.leb_spec (N_of_ascii a) 127); [lia |].
  destruct (N.leb_spec 194 (N_of_ascii a)); [| lia].
  destruct (N.leb_spec (N_of_ascii a) 223); [lia |].
  destruct (N.leb_spec 224 (N_of_ascii a)); [| lia].
  destruct (N.leb_spec (N_of_ascii a) 239); [| lia].
  reflexivity.
Qed.

Lemma lead_4 (a : ascii) :
  (240 <= N_of_ascii a <= 244)%N ->
  Utf8.lead a
  = ("", Utf8.mkState (String a "") 3
           (if (N_of_ascii a =? 240)%N then 144%N else 128%N)
           (if (N_of_ascii a =? 244)%N then 143%N else 191%N)).
Proof.
  intros H. unfold Utf8.lead.
  destruct (N.leb_spec (N_of_ascii a) 127); [lia |].
  destruct (N.leb_spec 194 (N_of_ascii a)); [| lia].
  destruct (N.leb_spec (N_of_ascii a) 223); [lia |].
  destruct (N.leb_spec 224 (N_of_ascii a)); [| lia].
  destruct (N.leb_spec (N_of_ascii a) 239); [lia |].
  destruct (N.leb_spec 240 (N_of_ascii a)); [| lia].
  destruct (N.leb_spec (N_of_ascii a) 244); [| lia].
  reflexivity.
Qed.

Lemma step_last (s : string) (lo hi : N) (a : ascii) :
  (lo <= N_of_ascii a <= hi)%N ->
  Utf8.step (Utf8.mkState s 1 lo hi) a = (s +:+ String a "", Utf8.idle).
Proof.
  intros H. unfold Utf8.step.
  cbn [Utf8.needed Utf8.lower Utf8.upper Utf8.seen].
  destruct (N.leb_spec lo (N_of_ascii a)); [| lia].
  destruct (N.leb_spec (N_of_ascii a) hi); [| lia].
  reflexivity.
Qed.

Lemma step_more (s : string) (k : nat) (lo hi : N) (a : ascii) :
  (lo <= N_of_ascii a <= hi)%N ->
  Utf8.step (Utf8.mkState s (S (S k)) lo hi) a
  = ("", Utf8.mkState (s +:+ String a "") (S k) 128 191).
Proof.
  intros H. unfold Utf8.step.
  cbn [Utf8.needed Utf8.lower Utf8.upper Utf8.seen].
  destruct (N.leb_spec lo (N_of_ascii a)); [| lia].
  destruct (N.leb_spec (N_of_ascii a) hi); [| lia].
  reflexivity.
Qed.

Lemma run_cons (st : Utf8.state) (b : byte) (bs : list byte) :
  Utf8.run st (b :: bs)
  = fst (Utf8.step st (ascii_of_byte b))
    +:+ Utf8.run (snd (Utf8.step st (ascii_of_byte b))) bs.
Proof.
  cbn [Utf8.run]. destruct (Utf8.step st (ascii_of_byte b)). reflexivity.
Qed.

Lemma second_bounds (b1 b2 : byte) :
  between (second_low b1) (second_high b1) b2 ->
  (224 <= Byte.to_N b1 <= 239)%N ->
  ((if (Byte.to_N b1 =? 224)%N then 160 else 128) <= Byte.to_N b2
   <= (if (Byte.to_N b1 =? 237)%N then 159 else 191))%N.
Proof.
  unfold between, second_low, second_high. intros H Hb1. revert H.
  decide_codes; lia.
Qed.

Lemma second_bounds_4 (b1 b2 : byte) :
  between (second_low b1) (second_high b1) b2 ->
  (240 <= Byte.to_N b1 <= 244)%N ->
  ((if (Byte.to_N b1 =? 240)%N then 144 else 128) <= Byte.to_N b2
   <= (if (Byte.to_N b1 =? 244)%N then 143 else 191))%N.
Proof.
  unfold between, second_low, second_high. intros H Hb1. revert H.
  decide_codes; lia.
Qed.

(** The decoder copies a well-formed prefix and starts afresh after it. *)
Lemma run_well_formed (bs rest : list byte) :
  well_formed bs ->
  Utf8.run Utf8.idle (bs ++ rest)
  = string_of_list_byte bs +:+ Utf8.run Utf8.idle rest.
Proof.
  unfold between.
  induction 1 as [| b bs' Hb _ IH
                  | b1 b2 bs' H1 H2 _ IH
                  | b1 b2 b3 bs' H1 H2 H3 _ IH
                  | b1 b2 b3 b4 bs' H1 H2 H3 H4 _ IH];
    [reflexivity | | | |]; unfold between in *;
    cbn [app]; rewrite !run_cons.
  - change (Utf8.step Utf8.idle (ascii_of_byte b))
      with (Utf8.lead (ascii_of_byte b)).
    rewrite lead_1 by (rewrite code_of_byte; lia).
    cbn [fst snd]. rewrite IH. reflexivity.
  - change (Utf8.step Utf8.idle (ascii_of_byte b1))
      with (Utf8.lead (ascii_of_byte b1)).
    rewrite lead_2 by (rewrite code_of_byte; lia). cbn [fst snd].
    rewrite step_last by (rewrite code_of_byte; lia). cbn [fst snd].
    rewrite IH. reflexivity.
  - change (Utf8.step Utf8.idle (ascii_of_byte b1))
      with (Utf8.lead (ascii_of_byte b1)).
    rewrite lead_3 by (rewrite code_of_byte; lia). cbn [fst snd].
    rewrite step_more
      by (rewrite !code_of_byte; apply (second_bounds b1 b2); [exact H2 | lia]).
    cbn [fst snd].
    rewrite step_last by (rewrite code_of_byte; lia). cbn [fst snd].
    rewrite IH. reflexivity.
  - change (Utf8.step Utf8.idle (ascii_of_byte b1))
      with (Utf8.lead (ascii_of_byte b1)).
    rewrite lead_4 by (rewrite code_of_byte; lia). cbn [fst snd].
    rewrite step_more
      by (rewrite !code_of_byte; apply (second_bounds_4 b1 b2); [exact H2 | lia]).
    cbn [fst snd].
    rewrite step_more by (rewrite code_of_byte; lia). cbn [fst snd].
    rewrite step_last by (rewrite code_of_byte; lia). cbn [fst snd].
    rewrite IH. reflexivity.
Qed.

Lemma string_of_bytes_app (a b : list byte) :
  string_of_list_byte (a ++ b) = string_of_list_byte a +:+ string_of_list_byte b.
Proof.
  induction a as [| x a IH]; [reflexivity |].
  change (String (ascii_of_byte x) (string_of_list_byte (a ++ b))
          = String (ascii_of_byte x)
              (string_of_list_byte a +:+ string_of_list_byte b)).
  f_equal. exact IH.
Qed.

Lemma toString_well_formed (chunk : list byte) :
  well_formed chunk -> Utf8.toString chunk = string_of_list_byte chunk.
Proof.
  intros Hwf. unfold Utf8.toString.
  rewrite <- (app_nil_r chunk) at 1.
  rewrite (run_well_formed chunk [] Hwf). apply append_nil_r.
Qed.

(** X15: a success body whose chunks are well-formed UTF-8 is written to
    stdout byte for byte, in order, and then the command completes (lines
    162-168). *)
Theorem raw_text_passes_through (chunks : list (list byte)) :
  Forall well_formed chunks ->
  stdout_text (List.flat_map on_res_event (List.map Data chunks ++ [End]))
  = string_of_list_byte (List.concat chunks)
  /\ completions (List.flat_map on_res_event (List.map Data chunks ++ [End]))
     = [None].
Proof.
  intros Hwf. rewrite List.flat_map_app, data_events. split.
  - rewrite stdout_text_chunks. cbn [List.flat_map on_res_event app stdout_text].
    rewrite append_nil_r.
    induction Hwf as [| c cs Hc _ IH]; [reflexivity |].
    cbn [List.map concat_text foldr List.concat].
    fold (concat_text (List.map Utf8.toString cs)).
    rewrite string_of_bytes_app, IH, (toString_well_formed c Hc). reflexivity.
  - rewrite completions_app.
    rewrite (quiet_completions (List.map _ chunks)); [reflexivity |].
    apply List.Forall_map, Forall_forall. reflexivity.
Qed.

Lemma raw_text_passes_through_witness :
  stdout_text
    (List.flat_map on_res_event
       (List.map Data [[x63; xc3; xa9]; [xe2; x82; xac]] ++ [End]))
  = string_of_list_byte [x63; xc3; xa9; xe2; x82; xac].
Proof.
  apply (raw_text_passes_through [[x63; xc3; xa9]; [xe2; x82; xac]]).
  repeat constructor; unfold between, second_low, second_high; cbn; lia.
Defined.

(** X16: where the transport cuts the body into chunks does not matter as
    long as it cuts between characters: a chunk [a ++ b] whose part [a] is
    well-formed UTF-8 is written as the two chunks [a] and [b] are (lines
    162-164). *)
Theorem raw_chunk_boundary (a b : list byte) :
  well_formed a ->
  stdout_text (on_res_event (Data (a ++ b)))
  = stdout_text (List.flat_map on_res_event [Data a; Data b]).
Proof.
  intros Hwf. cbn [on_res_event List.flat_map app stdout_text].
  rewrite !append_nil_r. unfold Utf8.toString.
  rewrite (run_well_formed a b Hwf).
  rewrite <- (app_nil_r a) at 2.
  rewrite (run_well_formed a [] Hwf).
  change (Utf8.run Utf8.idle []) with "". rewrite append_nil_r. reflexivity.
Qed.

Lemma raw_chunk_boundary_witness :
  stdout_text (on_res_event (Data ([xc3; xa9] ++ [xe2; x82])))
  = stdout_text (List.flat_map on_res_event [Data [xc3; xa9]; Data [xe2; x82]]).
Proof.
  apply (raw_chunk_boundary [xc3; xa9] [xe2; x82]).
  repeat constructor; unfold between; cbn; lia.
Defined.

Lemma has_code_app (p : N -> bool) (a b : string) :
  has_code p (a +:+ b) = has_code p a || has_code p b.
Proof.
  induction a as [| x a IH]; string_simpl; cbn [has_code]; [reflexivity |].
  rewrite IH. apply orb_assoc.
Qed.

Lemma never_in_utf8_false (n : N) :
  (n <= 191 \/ 194 <= n <= 244)%N -> never_in_utf8 n = false.
Proof. intros H. unfold never_in_utf8. decide_codes; reflexivity. Qed.

Lemma idle_clean : clean_state Utf8.idle.
Proof. unfold clean_state. cbn. repeat split; lia. Qed.

Lemma lead_clean (a : ascii) :
  has_code never_in_utf8 (fst (Utf8.lead a)) = false
  /\ clean_state (snd (Utf8.lead a)).
Proof.
  unfold Utf8.lead.
  destruct (N.leb_spec (N_of_ascii a) 127).
  { split; [| apply idle_clean]. cbn [fst has_code].
    rewrite never_in_utf8_false by lia. reflexivity. }
  assert (Hlead : forall k lo hi,
             (194 <= N_of_ascii a <= 244)%N -> (128 <= lo)%N -> (hi <= 191)%N ->
             has_code never_in_utf8 (fst ("", Utf8.mkState (String a "") k lo hi))
             = false
             /\ clean_state (snd ("", Utf8.mkState (String a "") k lo hi))).
  { intros k lo hi Ha Hlo Hhi. split; [reflexivity |].
    unfold clean_state. cbn [snd Utf8.seen Utf8.lower Utf8.upper has_code].
    rewrite never_in_utf8_false by lia. auto. }
  destruct (N.leb_spec 194 (N_of_ascii a)); cbn [andb].
  - destruct (N.leb_spec (N_of_ascii a) 223); [apply Hlead; lia |].
    destruct (N.leb_spec 224 (N_of_ascii a)); [| lia]. cbn [andb].
    destruct (N.leb_spec (N_of_ascii a) 239).
    { apply Hlead; [lia | |]; decide_codes; lia. }
    destruct (N.leb_spec 240 (N_of_ascii a)); [| lia]. cbn [andb].
    destruct (N.leb_spec (N_of_ascii a) 244).
    { apply Hlead; [lia | |]; decide_codes; lia. }
    split; [reflexivity | apply idle_clean].
  - destruct (N.leb_spec 224 (N_of_ascii a)); [lia |]. cbn [andb].
    destruct (N.leb_spec 240 (N_of_ascii a)); [lia |]. cbn [andb].
    split; [reflexivity | apply idle_clean].
Qed.

Lemma step_clean (st : Utf8.state) (a : ascii) :
  clean_state st ->
  has_code never_in_utf8 (fst (Utf8.step st a)) = false
  /\ clean_state (snd (Utf8.step st a)).
Proof.
  intros (Hseen & Hlo & Hhi). unfold Utf8.step.
  destruct (Utf8.needed st) as [| k]; [apply lead_clean |].
  destruct (N.leb_spec (Utf8.lower st) (N_of_ascii a)); cbn [andb].
  - destruct (N.leb_spec (N_of_ascii a) (Utf8.upper st)).
    + assert (Hgrown : has_code never_in_utf8 (Utf8.seen st +:+ String a "")
                       = false).
      { rewrite has_code_app, Hseen. cbn [has_code orb].
        rewrite never_in_utf8_false by lia. reflexivity. }
      destruct k; cbn [fst snd].
      * split; [exact Hgrown | apply idle_clean].
      * split; [reflexivity |]. unfold clean_state.
        cbn [Utf8.seen Utf8.lower Utf8.upper]. repeat split; [exact Hgrown | lia | lia].
    + destruct (lead_clean a) as [Hout Hst].
      destruct (Utf8.lead a) as [out st']. cbn [fst snd] in *.
      split; [| exact Hst]. rewrite has_code_app, Hout. reflexivity.
  - destruct (lead_clean a) as [Hout Hst].
    destruct (Utf8.lead a) as [out st']. cbn [fst snd] in *.
    split; [| exact Hst]. rewrite has_code_app, Hout. reflexivity.
Qed.

Lemma run_clean (bs : list byte) (st : Utf8.state) :
  clean_state st -> has_code never_in_utf8 (Utf8.run st bs) = false.
Proof.
  revert st. induction bs as [| b bs IH]; intros st Hst.
  - cbn [Utf8.run]. destruct (Utf8.needed st); reflexivity.
  - rewrite run_cons, has_code_app.
    destruct (step_clean st (ascii_of_byte b) Hst) as [Hout Hst'].
    rewrite Hout, (IH _ Hst'). reflexivity.
Qed.

(** X17: what is written for a chunk never contains one of the bytes C0,
    C1, F5 to FF; so a chunk that has such a byte (binary data) is not
    written as it came (lines 154-164). *)
Theorem raw_binary_not_reproduced (chunk : list byte) :
  has_code never_in_utf8 (stdout_text (on_res_event (Data chunk))) = false
  /\ (has_code never_in_utf8 (string_of_list_byte chunk) = true ->
      stdout_text (on_res_event (Data chunk)) <> string_of_list_byte chunk).
Proof.
  assert (Hclean : has_code never_in_utf8
                     (stdout_text (on_res_event (Data chunk))) = false).
  { cbn [on_res_event stdout_text]. rewrite append_nil_r.
    apply run_clean, idle_clean. }
  split; [exact Hclean |].
  intros Hbin Heq. rewrite Heq in Hclean. congruence.
Qed.

Lemma raw_binary_not_reproduced_witness :
  stdout_text (on_res_event (Data [x89; x50; x4e; x47; xff]))
  <> string_of_list_byte [x89; x50; x4e; x47; xff].
Proof.
  destruct (raw_binary_not_reproduced [x89; x50; x4e; x47; xff]) as [_ H].
  apply H. reflexivity.
Defined.

(** ** The serialized error body *)

Lemma occurs_app (c : ascii) (a b : string) :
  occurs c (a +:+ b) = occurs c a || occurs c b.
Proof.
  induction a as [| x a IH]; string_simpl; cbn [occurs]; [reflexivity |].
  rewrite IH. apply orb_assoc.
Qed.

Lemma digits_one_line (d : Decimal.uint) :
  occurs "010" (NilEmpty.string_of_uint d) = false.
Proof. induction d; cbn [NilEmpty.string_of_uint occurs]; auto. Qed.

Lemma of_Z_one_line (z : Z) : occurs "010" (JS.of_Z z) = false.
Proof.
  unfold JS.of_Z, NilZero.string_of_int, NilZero.string_of_uint.
  destruct (Z.to_int z) as [d | d].
  - destruct d; try reflexivity; apply (digits_one_line (_ d)).
  - cbn [occurs]. destruct d; try reflexivity; apply (digits_one_line (_ d)).
Qed.

Lemma hex_digit_one_line (n : N) :
  (n < 16)%N -> Ascii.eqb (Json.hex_digit n) "010" = false.
Proof.
  intros Hn. apply Ascii.eqb_neq. intros H.
  apply (f_equal N_of_ascii) in H. unfold Json.hex_digit in H.
  destruct (N.ltb_spec n 10);
    rewrite N_ascii_embedding in H by lia; cbn in H; lia.
Qed.

Lemma escape_char_one_line (a : ascii) :
  occurs "010" (Json.escape_char a) = false.
Proof.
  unfold Json.escape_char.
  repeat match goal with
         | |- context [(?x =? ?y)%N] => destruct (N.eqb_spec x y); [reflexivity |]
         end.
  destruct (N.ltb_spec (N_of_ascii a) 32).
  - rewrite occurs_app. cbn [occurs].
    rewrite !hex_digit_one_line; [reflexivity | |].
    + apply N.mod_upper_bound. lia.
    + apply N.Div0.div_lt_upper_bound. lia.
  - cbn [occurs]. rewrite orb_false_r. apply Ascii.eqb_neq.
    intros ->. cbn in *. lia.
Qed.

Lemma quote_one_line (s : string) : occurs "010" (Json.quote s) = false.
Proof.
  unfold Json.quote. rewrite !occurs_app.
  assert (H : occurs "010" (Json.escape s) = false).
  { induction s as [| a s IH]; [reflexivity |].
    cbn [Json.escape]. rewrite occurs_app, escape_char_one_line, IH.
    reflexivity. }
  rewrite H. reflexivity.
Qed.

Lemma concat_one_line (sep : string) (l : list string) :
  occurs "010" sep = false ->
  Forall (fun s => occurs "010" s = false) l ->
  occurs "010" (String.concat sep l) = false.
Proof.
  intros Hsep. induction 1 as [| x l Hx Hl IH]; [reflexivity |].
  destruct l as [| y l']; [exact Hx |].
  change (occurs "010" (x +:+ sep +:+ String.concat sep (y :: l')) = false).
  rewrite !occurs_app, Hx, Hsep, IH. reflexivity.
Qed.

Lemma stringify_one_line (v : jsval) :
  occurs "010" (Json.stringify v) = false.
Proof.
  induction v as [| b | n | s | items IH | fields IH] using jsval_nested_ind.
  - reflexivity.
  - destruct b; reflexivity.
  - apply of_Z_one_line.
  - apply quote_one_line.
  - cbn [Json.stringify]. rewrite !occurs_app.
    rewrite concat_one_line; [reflexivity | reflexivity |].
    apply List.Forall_map. exact IH.
  - cbn [Json.stringify]. rewrite !occurs_app.
    rewrite concat_one_line; [reflexivity | reflexivity |].
    apply List.Forall_map. eapply Forall_impl; [exact IH |].
    intros [k x] Hx. cbn [fst snd] in *.
    rewrite !occurs_app, quote_one_line, Hx. reflexivity.
Qed.

(** X18: an error body that is an object or an array is printed on one
    line: the text written for it is a text without line feed, followed by
    one line feed (lines 144-146). *)
Theorem raw_error_body_one_line (m : string) (w : world) (e : res_error)
    (b : jsval) :
  m <> "HEAD" ->
  resErr w = Some e ->
  err_body e = Some b ->
  Json.truthy b = true ->
  Json.typeof b = "object" ->
  exists line,
    stdout_text (handle_body m w) = line +:+ nl
    /\ occurs "010" line = false.
Proof.
  intros Hm Herr Hbody Htruthy Htype.
  exists (Json.stringify b). split; [| apply stringify_one_line].
  unfold handle_body. rewrite (head_eqb_false m Hm), Herr, Hbody, Htruthy, Htype.
  cbn [String.eqb console_log stdout_text]. apply append_nil_r.
Qed.

Lemma raw_error_body_one_line_witness :
  exists line,
    stdout_text
      (handle_body "GET"
         (Demo.not_found_world
            (Some (JObj [("message", JStr ("a" +:+ nl +:+ "b"))]))))
    = line +:+ nl
    /\ occurs "010" line = false.
Proof.
  apply (raw_error_body_one_line "GET"
           (Demo.not_found_world
              (Some (JObj [("message", JStr ("a" +:+ nl +:+ "b"))])))
           (mkResError (Some (JObj [("message", JStr ("a" +:+ nl +:+ "b"))])))
           (JObj [("message", JStr ("a" +:+ nl +:+ "b"))]));
    [discriminate | reflexivity | reflexivity | reflexivity | reflexivity].
Defined.

(** ** The headers of the signer *)

(** X19: the headers object is shared with the signer: whatever
    [signRequest] assigns on it is in the request that is sent, with the
    value assigned last, also when a [--header] flag had set that name
    (lines 68-71 and 96-104). *)
Theorem raw_signer_headers_sent (P : platform) (opts : raw_opts)
    (args : list string) (w : world) (mf : string) (ro : req_opts) :
  request mf ro ∈ do_raw P opts args w ->
  exists hs,
    signRequest hs ∈ do_raw P opts args w
    /\ forall k v,
         last (filter (fun kv => fst kv = k) (sign_sets w hs)) = Some (k, v) ->
         obj_get k (req_headers ro) = Some v.
Proof.
  intros Hreq.
  destruct (do_raw_dispatched P opts args w mf ro Hreq) as (hs & _ & Hro & Hsign).
  exists hs. split; [exact Hsign |].
  intros k v Hlast. rewrite Hro. unfold signed.
  rewrite (sets_get_last (sign_sets w hs) hs k).
  change (obj string) with (list (string * string)) in *.
  rewrite Hlast. reflexivity.
Qed.

Lemma raw_signer_headers_sent_witness :
  let opts := mkOpts false false None (Some ["authorization: mine"]) false None in
  let ro := mkReqOpts [("authorization", "Signature x")] "/buckets" in
  obj_get "authorization" (req_headers ro) = Some "Signature x".
Proof.
  intros opts ro.
  destruct (raw_signer_headers_sent Demo.platform opts ["/buckets"]
              (Demo.ok_world [End]) "get" ro) as (hs & _ & Hsent).
  - apply list_elem_of_further, list_elem_of_here.
  - apply Hsent. reflexivity.
Defined.

(** ** What is written is UTF-8 *)

Lemma bytes_app (a b : string) :
  list_byte_of_string (a +:+ b)
  = list_byte_of_string a ++ list_byte_of_string b.
Proof.
  induction a as [| x a IH]; [reflexivity |].
  change (byte_of_ascii x :: list_byte_of_string (a +:+ b)
          = byte_of_ascii x :: (list_byte_of_string a ++ list_byte_of_string b)).
  f_equal. exact IH.
Qed.

Lemma code_of_ascii (a : ascii) : Byte.to_N (byte_of_ascii a) = N_of_ascii a.
Proof. rewrite <- code_of_byte, ascii_of_byte_of_ascii. reflexivity. Qed.

Lemma replacement_well_formed (rest : list byte) :
  well_formed rest ->
  well_formed (list_byte_of_string Utf8.replacement ++ rest).
Proof.
  intros Hwf. change (well_formed (xef :: xbf :: xbd :: rest)).
  apply wf_3; [| | | exact Hwf];
    unfold between, second_low, second_high; cbn; lia.
Qed.

Lemma idle_pending_ok : pending_ok Utf8.idle.
Proof.
  intros cs rest (Hlen & c & cs' & -> & _) _. cbn in Hlen. discriminate.
Qed.

Lemma lead_well_formed (a : ascii) (rest : list byte) :
  well_formed rest ->
  well_formed (list_byte_of_string (fst (Utf8.lead a)) ++ rest)
  /\ pending_ok (snd (Utf8.lead a)).
Proof.
  intros Hwf.
  destruct (N.leb_spec (N_of_ascii a) 127) as [H1 | H1].
  { rewrite lead_1 by exact H1. split; [| apply idle_pending_ok].
    apply wf_1; [| exact Hwf]. unfold between. rewrite code_of_ascii. lia. }
  destruct (N.ltb_spec (N_of_ascii a) 194) as [H2 | H2].
  { unfold Utf8.lead. decide_codes.
    split; [apply replacement_well_formed; exact Hwf | apply idle_pending_ok]. }
  destruct (N.leb_spec (N_of_ascii a) 223) as [H3 | H3].
  { rewrite lead_2 by lia. split; [exact Hwf |].
    intros cs r (Hlen & c & cs' & -> & Hc & _) Hr.
    cbn [snd Utf8.needed length] in Hlen. destruct cs'; [| discriminate].
    apply wf_2; [| exact Hc | exact Hr].
    unfold between. rewrite code_of_ascii. lia. }
  destruct (N.leb_spec (N_of_ascii a) 239) as [H4 | H4].
  { rewrite lead_3 by lia. split; [exact Hwf |].
    intros cs r (Hlen & c & cs' & -> & Hc & Hcs) Hr.
    cbn [snd Utf8.needed length] in Hlen.
    destruct cs' as [| c2 [| c3 cs'']]; try discriminate.
    apply Forall_cons in Hcs as [Hc2 _].
    apply wf_3; [| | exact Hc2 | exact Hr].
    - unfold between. rewrite code_of_ascii. lia.
    - revert Hc. unfold between, second_low, second_high.
      cbn [snd Utf8.lower Utf8.upper]. rewrite code_of_ascii.
      decide_codes; lia. }
  destruct (N.leb_spec (N_of_ascii a) 244) as [H5 | H5].
  { rewrite lead_4 by lia. split; [exact Hwf |].
    intros cs r (Hlen & c & cs' & -> & Hc & Hcs) Hr.
    cbn [snd Utf8.needed length] in Hlen.
    destruct cs' as [| c2 [| c3 [| c4 cs'']]]; try discriminate.
    apply Forall_cons in Hcs as [Hc2 Hcs].
    apply Forall_cons in Hcs as [Hc3 _].
    apply wf_4; [| | exact Hc2 | exact Hc3 | exact Hr].
    - unfold between. rewrite code_of_ascii. lia.
    - revert Hc. unfold between, second_low, second_high.
      cbn [snd Utf8.lower Utf8.upper]. rewrite code_of_ascii.
      decide_codes; lia. }
  unfold Utf8.lead. decide_codes.
  split; [apply replacement_well_formed; exact Hwf | apply idle_pending_ok].
Qed.

Lemma step_well_formed (st : Utf8.state) (a : ascii) (rest : list byte) :
  pending_ok st ->
  well_formed rest ->
  well_formed (list_byte_of_string (fst (Utf8.step st a)) ++ rest)
  /\ pending_ok (snd (Utf8.step st a)).
Proof.
  intros Hst Hwf. unfold Utf8.step.
  destruct (Utf8.needed st) as [| k] eqn:Hneed; [apply lead_well_formed; exact Hwf |].
  assert (Hout : well_formed
                   (list_byte_of_string
                      (fst (let '(out, st') := Utf8.lead a in
                            (Utf8.replacement +:+ out, st'))) ++ rest)
                 /\ pending_ok
                      (snd (let '(out, st') := Utf8.lead a in
                            (Utf8.replacement +:+ out, st')))).
  { destruct (lead_well_formed a rest Hwf) as [Hl Hp].
    destruct (Utf8.lead a) as [out st']. cbn [fst snd] in *.
    split; [| exact Hp]. rewrite bytes_app, <- List.app_assoc.
    apply replacement_well_formed. exact Hl. }
  destruct (N.leb_spec (Utf8.lower st) (N_of_ascii a)) as [Hlo | Hlo];
    [| exact Hout].
  destruct (N.leb_spec (N_of_ascii a) (Utf8.upper st)) as [Hhi | Hhi];
    [| exact Hout].
  cbn [andb].
  assert (Hc : between (Utf8.lower st) (Utf8.upper st) (byte_of_ascii a)).
  { unfold between. rewrite code_of_ascii. lia. }
  destruct k as [| k]; cbn [fst snd].
  - split; [| apply idle_pending_ok].
    rewrite bytes_app.
    change (list_byte_of_string (String a "")) with [byte_of_ascii a].
    rewrite <- List.app_assoc. apply Hst; [| exact Hwf].
    split; [rewrite Hneed; reflexivity |].
    exists (byte_of_ascii a), []. repeat split; [exact (proj1 Hc) | exact (proj2 Hc) | constructor].
  - split; [exact Hwf |].
    intros cs r (Hlen & c & cs' & -> & Hcc & Hcs) Hr.
    cbn [Utf8.seen Utf8.needed Utf8.lower Utf8.upper] in *.
    rewrite bytes_app.
    change (list_byte_of_string (String a "")) with [byte_of_ascii a].
    rewrite <- List.app_assoc.
    change ([byte_of_ascii a] ++ (c :: cs') ++ r)
      with ((byte_of_ascii a :: c :: cs') ++ r).
    apply Hst; [| exact Hr].
    split; [rewrite Hneed; cbn [length] in *; lia |].
    exists (byte_of_ascii a), (c :: cs').
    repeat split; [exact (proj1 Hc) | exact (proj2 Hc) |].
    constructor; [exact Hcc | exact Hcs].
Qed.

Lemma run_writes_utf8 (bs : list byte) (st : Utf8.state) :
  pending_ok st -> well_formed (list_byte_of_string (Utf8.run st bs)).
Proof.
  revert st. induction bs as [| b bs IH]; intros st Hst.
  - cbn [Utf8.run]. destruct (Utf8.needed st); [constructor |].
    rewrite <- (app_nil_r (list_byte_of_string Utf8.replacement)).
    apply replacement_well_formed. constructor.
  - rewrite run_cons, bytes_app.
    destruct (step_well_formed st (ascii_of_byte b)
                (list_byte_of_string
                   (Utf8.run (snd (Utf8.step st (ascii_of_byte b))) bs)) Hst)
      as [Hout _].
    + apply IH.
      destruct (step_well_formed st (ascii_of_byte b) [] Hst wf_nil) as [_ Hp].
      exact Hp.
    + exact Hout.
Qed.

(** X20: whatever bytes a chunk of the body holds, the bytes written to
    stdout for it are well-formed UTF-8 (lines 162-164). *)
Theorem raw_output_is_utf8 (chunk : list byte) :
  well_formed (list_byte_of_string (stdout_text (on_res_event (Data chunk)))).
Proof.
  cbn [on_res_event stdout_text]. rewrite append_nil_r.
  apply run_writes_utf8, idle_pending_ok.
Qed.

(** ** After the request has been sent *)

(** X21: once the request has been sent, the callback never gets an error:
    whatever the status of the response and whatever the error object
    holds, the only completion [do_raw] reports is success (lines
    118-170). *)
Theorem raw_sent_never_fails (P : platform) (opts : raw_opts)
    (args : list string) (w : world) (e : error) :
  req_end ∈ do_raw P opts args w ->
  cb (Some e) ∉ do_raw P opts args w.
Proof.
  intros Hsent Hin.
  destruct (do_raw_sent P opts args w Hsent) as (pre & Heq & Hq & _).
  rewrite Heq in Hin.
  assert (Hall : Forall (fun x => x <> cb (Some e))
                   (pre ++ req_end :: onResult P opts (resolve_method opts) w)).
  { apply Forall_app. split.
    - eapply Forall_impl; [exact Hq |]. intros x Hx ->. discriminate.
    - constructor; [discriminate |]. unfold onResult. apply Forall_app. split.
      + eapply Forall_impl; [apply response_trace_quiet |].
        intros x Hx ->. discriminate.
      + unfold handle_body.
        destruct (String.eqb (resolve_method opts) "HEAD");
          [repeat constructor; discriminate |].
        destruct (resErr w) as [r |].
        * destruct (err_body r) as [b |]; [| repeat constructor; discriminate].
          destruct (Json.truthy b); [| repeat constructor; discriminate].
          destruct (String.eqb (Json.typeof b) "object");
            [repeat constructor; discriminate |].
          destruct b; repeat constructor; discriminate.
        * repeat (constructor; [discriminate |]).
          apply List.Forall_flat_map, Forall_forall.
          intros [chunk |] _; repeat constructor; discriminate. }
  rewrite Forall_forall in Hall. exact (Hall _ Hin eq_refl).
Qed.

Lemma raw_sent_never_fails_witness :
  cb (Some (External "404"))
    ∉ do_raw Demo.platform Demo.no_opts ["/buckets/nope"]
        (Demo.not_found_world (Some Demo.not_found_body)).
Proof.
  apply (raw_sent_never_fails Demo.platform Demo.no_opts ["/buckets/nope"]
           (Demo.not_found_world (Some Demo.not_found_body))).
  do 2 apply list_elem_of_further. apply list_elem_of_here.
Defined.

(** ** A method that names an inherited property *)




(** ** The order of the headers *)

Lemma distinct_sub (l : list string) (x : string) :
  x ∈ distinct l -> x ∈ l.
Proof.
  induction l as [| y l IH]; [intros H; inversion H |].
  cbn [distinct]. rewrite !elem_of_cons, list_elem_of_filter. tauto.
Qed.

Lemma distinct_snoc (l : list string) (k : string) :
  distinct (l ++ [k])
  = if decide (k ∈ l) then distinct l else distinct l ++ [k].
Proof.
  induction l as [| x l IH]; [reflexivity |].
  cbn [app distinct]. rewrite IH.
  destruct (decide (k ∈ l)) as [Hin | Hout].
  - rewrite decide_True by (apply list_elem_of_further; exact Hin).
    reflexivity.
  - rewrite filter_app. destruct (decide (k = x)) as [-> | Hne].
    + rewrite decide_True by apply list_elem_of_here.
      rewrite filter_cons_False by (intros H; exact (H eq_refl)).
      rewrite filter_nil, app_nil_r. reflexivity.
    + rewrite decide_False
        by (rewrite elem_of_cons; intros [H | H]; [exact (Hne H) | exact (Hout H)]).
      rewrite filter_cons_True by exact Hne. reflexivity.
Qed.

Lemma obj_keys_insert_eq {V} (k : string) (v : V) (o : obj V) :
  obj_keys (obj_insert k v o) = key_insert k (obj_keys o).
Proof.
  unfold obj_keys. induction o as [| [k' v'] o IH]; [reflexivity |].
  cbn [obj_insert]. rewrite fmap_cons. cbn [fst key_insert].
  destruct (goes_before k k'); rewrite !fmap_cons; cbn [fst];
    [reflexivity | rewrite IH; reflexivity].
Qed.

Lemma key_insert_perm (k : string) (ks : list string) :
  key_insert k ks ≡ₚ k :: ks.
Proof.
  induction ks as [| k' ks IH]; cbn [key_insert]; [reflexivity |].
  destruct (goes_before k k'); [reflexivity |].
  rewrite IH. apply Permutation_swap.
Qed.

(** An array index is put among the array indices. *)
Lemma key_insert_index_app (k : string) (indices others : list string) :
  is_Some (array_index k) ->
  Forall (fun n => array_index n = None) others ->
  key_insert k (indices ++ others) = key_insert k indices ++ others.
Proof.
  intros [i Hi] Hothers. induction indices as [| x indices IH].
  - destruct Hothers as [| y others Hy _]; [reflexivity |].
    cbn [app key_insert]. unfold goes_before. rewrite Hi, Hy. reflexivity.
  - cbn [app key_insert]. destruct (goes_before k x); [reflexivity |].
    rewrite IH. reflexivity.
Qed.

Lemma key_insert_ascending (k : string) (indices : list string) :
  is_Some (array_index k) ->
  Forall (fun n => is_Some (array_index n)) indices ->
  ascending indices ->
  ascending (key_insert k indices).
Proof.
  intros [i Hi] Hall Hasc. unfold ascending in *.
  induction indices as [| x indices IH]; cbn [key_insert].
  - repeat constructor.
  - apply Forall_cons in Hall as [[j Hj] Hall].
    apply StronglySorted_inv in Hasc as [Hasc Hx].
    destruct (goes_before k x) eqn:Hkx.
    + unfold goes_before in Hkx. rewrite Hi, Hj in Hkx.
      apply N.ltb_lt in Hkx.
      constructor; [constructor; assumption |].
      constructor.
      * unfold goes_before. rewrite Hi, Hj. apply N.ltb_ge. lia.
      * rewrite Forall_forall in Hx, Hall. apply Forall_forall.
        intros y Hy. destruct (Hall y Hy) as [m Hm].
        specialize (Hx y Hy). unfold goes_before in Hx |- *.
        rewrite Hm, Hj in Hx. rewrite Hm, Hi.
        apply N.ltb_ge in Hx. apply N.ltb_ge. lia.
    + constructor; [apply IH; assumption |].
      rewrite key_insert_perm. constructor; assumption.
Qed.

Lemma filter_indices (indices others : list string) :
  Forall (fun n => is_Some (array_index n)) indices ->
  Forall (fun n => array_index n = None) others ->
  filter (fun n => is_Some (array_index n)) (indices ++ others) = indices.
Proof.
  intros Hi Ho. rewrite filter_app.
  replace (filter (fun n => is_Some (array_index n)) others) with (@nil string).
  - rewrite app_nil_r. induction Hi as [| x l Hx _ IH]; [reflexivity |].
    rewrite filter_cons_True by exact Hx. f_equal. exact IH.
  - induction Ho as [| x l Hx _ IH]; [reflexivity |].
    rewrite filter_cons_False by (rewrite Hx; apply is_Some_None).
    exact IH.
Qed.

Lemma header_names_snoc (raws : list string) (r : string) :
  header_names (raws ++ [r])
  = header_names raws
    ++ (if decide (header_name r = "__proto__") then [] else [header_name r]).
Proof.
  unfold header_names. rewrite fmap_app, filter_app. f_equal.
  cbn [fmap list_fmap]. destruct (decide (header_name r = "__proto__")) as [H | H].
  - rewrite filter_cons_False by (intros Hn; exact (Hn H)). reflexivity.
  - rewrite filter_cons_True by exact H. reflexivity.
Qed.

(** The names of the headers object: the array indices among the names of
    the flags, in ascending order, then the other names in the order in
    which they first occur. *)
Lemma built_order (raws : list string) :
  exists indices,
    obj_keys (built_headers raws)
    = indices
      ++ distinct (filter (fun n => array_index n = None) (header_names raws))
    /\ ascending indices
    /\ forall n, n ∈ indices
                 <-> n ∈ header_names raws /\ is_Some (array_index n).
Proof.
  induction raws as [| r raws IH] using rev_ind.
  - exists []. split; [reflexivity |]. split; [constructor |].
    intros n. split; [intros H; inversion H | intros [H _]; inversion H].
  - destruct IH as (indices & Hkeys & Hasc & Hmem).
    set (others := distinct (filter (fun n => array_index n = None)
                               (header_names raws))) in *.
    assert (Hothers : Forall (fun n => array_index n = None) others).
    { apply Forall_forall. intros n Hn. apply distinct_sub in Hn.
      apply list_elem_of_filter in Hn as [Hn _]. exact Hn. }
    assert (Hindices : Forall (fun n => is_Some (array_index n)) indices).
    { apply Forall_forall. intros n Hn. apply Hmem in Hn as [_ Hn]. exact Hn. }
    unfold built_headers in *. rewrite foldl_snoc, header_names_snoc.
    set (o := foldl (fun o raw => obj_set (header_name raw) (header_value raw) o)
                [] raws) in *.
    set (k := header_name r). unfold obj_set.
    destruct (decide (k = "__proto__")) as [Hp | Hp].
    { rewrite Hp, String.eqb_refl, app_nil_r. exists indices. auto. }
    destruct (String.eqb_spec k "__proto__") as [| _]; [contradiction |].
    rewrite filter_app. unfold obj_put.
    destruct (array_index k) as [i |] eqn:Hk.
    + rewrite (filter_cons_False _ k) by (rewrite Hk; discriminate).
      rewrite filter_nil, app_nil_r. fold others.
      destruct (obj_has k o) eqn:Hhas.
      * exists indices. rewrite obj_keys_replace.
        split; [exact Hkeys |]. split; [exact Hasc |].
        intros n. rewrite Hmem, elem_of_app, list_elem_of_singleton.
        split; [tauto |]. intros [[Hn | ->] Hi]; [tauto |].
        apply Hmem. apply obj_has_keys in Hhas. rewrite Hkeys in Hhas.
        apply elem_of_app in Hhas as [Hin | Hin]; [exact Hin |].
        rewrite Forall_forall in Hothers. apply Hothers in Hin. congruence.
      * exists (key_insert k indices).
        rewrite obj_keys_insert_eq, Hkeys.
        split; [apply key_insert_index_app; [rewrite Hk; eauto | exact Hothers] |].
        split; [apply key_insert_ascending;
                [rewrite Hk; eauto | exact Hindices | exact Hasc] |].
        intros n. rewrite key_insert_perm, elem_of_cons, Hmem, elem_of_app,
          list_elem_of_singleton.
        split; [intros [-> | H]; [rewrite Hk; eauto | tauto] |].
        intros [[H | ->] Hi]; tauto.
    + rewrite (filter_cons_True _ k) by exact Hk.
      rewrite filter_nil, distinct_snoc. fold others.
      assert (Hmem' : forall n, n ∈ indices
                <-> n ∈ header_names raws ++ [k] /\ is_Some (array_index n)).
      { intros n. rewrite Hmem, elem_of_app, list_elem_of_singleton.
        split; [tauto |]. intros [[H | ->] Hi]; [tauto |].
        rewrite Hk in Hi. destruct (is_Some_None Hi). }
      exists indices. split; [| split; [exact Hasc | exact Hmem']].
      destruct (obj_has k o) eqn:Hhas.
      * rewrite obj_keys_replace, Hkeys. f_equal.
        rewrite decide_True; [reflexivity |].
        apply obj_has_keys in Hhas. rewrite Hkeys in Hhas.
        apply elem_of_app in Hhas as [Hin | Hin].
        -- apply Hmem in Hin as [_ Hi]. rewrite Hk in Hi.
           destruct (is_Some_None Hi).
        -- apply distinct_sub. exact Hin.
      * rewrite obj_insert_last by exact Hk.
        unfold obj_keys in *. rewrite fmap_app, Hkeys, <- List.app_assoc.
        f_equal. rewrite decide_False; [reflexivity |].
        intros Hin. apply distinct_elem in Hin. fold others in Hin.
        apply obj_has_false in Hhas. apply Hhas. unfold obj_keys.
        rewrite Hkeys. apply elem_of_app. right. exact Hin.
Qed.

(** Signing gets the headers object built from the flags. *)
Lemma do_raw_signs (P : platform) (opts : raw_opts) (args : list string)
    (w : world) (hs : obj string) :
  signRequest hs ∈ do_raw P opts args w ->
  hs = built_headers (default [] (header opts)).
Proof.
  rewrite do_raw_prepare.
  destruct (prepare P opts args) as [tr | mf hs0 p | hs0] eqn:Hprep.
  - intros H. destruct (stopped_elem P opts args tr _ Hprep H)
      as [? | (x & [? | ?])]; discriminate.
  - apply prepare_ready in Hprep as (_ & _ & _ & _ & _ & Hadd & _).
    apply add_headers_inr in Hadd. intros H.
    apply elem_of_cons in H as [H | H]; [injection H as ->; exact Hadd |].
    destruct (signErr w); [elem_cases H |].
    apply elem_of_cons in H as [H | H]; [discriminate |].
    pose proof (onRequest_no_dispatch P opts (resolve_method opts)
                  (mkReqOpts (signed w hs0) p) w) as Hall.
    rewrite Forall_forall in Hall. specialize (Hall _ H). discriminate.
  - apply prepare_misnamed in Hprep as (_ & _ & _ & Hadd).
    apply add_headers_inr in Hadd. intros H.
    apply elem_of_cons in H as [H | H]; [injection H as ->; exact Hadd |].
    destruct (signErr w); elem_cases H.
Qed.

(** X23: the headers object that is signed has these names, in the order in
    which [Object.keys] gives them (the order of the [--verbose] request
    lines): first the names of the flags that are array indices, in
    ascending order, then the other names of the flags in the order in which
    they first occur; [__proto__] is never among them (lines 72-84 and
    96-97). *)
Theorem raw_header_order (P : platform) (opts : raw_opts)
    (args : list string) (w : world) (raws : list string) (hs : obj string) :
  header opts = Some raws ->
  signRequest hs ∈ do_raw P opts args w ->
  let indices := filter (fun n => is_Some (array_index n)) (obj_keys hs) in
  obj_keys hs
  = indices
    ++ distinct (filter (fun n => array_index n = None) (header_names raws))
  /\ ascending indices
  /\ (forall n, n ∈ indices
                <-> n ∈ header_name <$> raws /\ is_Some (array_index n))
  /\ ("__proto__" ∉ obj_keys hs).
Proof.
  intros Hhdr Hsign indices. apply do_raw_signs in Hsign.
  rewrite Hhdr in Hsign. cbn [default from_option] in Hsign.
  unfold id in Hsign. subst hs.
  destruct (built_order raws) as (idx & Hkeys & Hasc & Hmem).
  assert (Hidx : indices = idx).
  { unfold indices. rewrite Hkeys. apply filter_indices.
    - apply Forall_forall. intros n Hn. apply Hmem in Hn as [_ Hn]. exact Hn.
    - apply Forall_forall. intros n Hn. apply distinct_sub in Hn.
      apply list_elem_of_filter in Hn as [Hn _]. exact Hn. }
  rewrite Hidx. split; [exact Hkeys |]. split; [exact Hasc |]. split.
  - intros n. rewrite Hmem. unfold header_names. rewrite list_elem_of_filter.
    split; [tauto |]. intros [Hn Hi]. split; [| exact Hi].
    split; [| exact Hn]. intros ->. destruct Hi as [i Hi]. discriminate.
  - rewrite Hkeys. intros H. apply elem_of_app in H as [H | H].
    + apply Hmem in H as [_ [i Hi]]. discriminate.
    + apply distinct_sub in H. apply list_elem_of_filter in H as [_ H].
      unfold header_names in H. apply list_elem_of_filter in H as [H _].
      exact (H eq_refl).
Qed.

Lemma raw_header_order_witness :
  let raws := ["b: 1"; "2: x"; "__proto__: p"; "10: y"; "a: 0"; "1: z"; "b: 2"] in
  let opts := mkOpts false false None (Some raws) false None in
  obj_keys (built_headers raws) = ["1"; "2"; "10"; "b"; "a"]
  /\ ascending ["1"; "2"; "10"].
Proof.
  intros raws opts.
  destruct (raw_header_order Demo.platform opts ["/buckets"]
              (Demo.ok_world [End]) raws (built_headers raws) eq_refl)
    as (Hkeys & Hasc & _).
  - apply list_elem_of_here.
  - split; [exact Hkeys | exact Hasc].
Defined.
